(** * GitHubCity: a shallow embedding of [githubcity/GitHubCity.py]

    The development follows the class [GitHubCity] method by method:
    - [RangePartitioner]: [_validInterval], the recursive bisection of a
      date interval driven by the [total_count] of a probe request;
    - [RateLimitedClient]: [_readAPI], the fetch/retry loop;
    - [City]: the object state, [__init__], [readConfig], the sequential
      reading of [_addUser] and [getSortUsers];
    - [Pool]: the worker threads ([_processUsers], [_addUser]) as a small-step
      machine whose steps are interleaved by a schedule;
    - [Sorting], [Persist]: [getTotalUsers], [getConfig], and what
      [getSortUsers] and [readConfig] are measured against;
    - [Crawler]: the producer, [_getURL], [_getPeriodUsers] and
      [getCityUsers];
    - [Pipeline], [Locks], [Drain]: vocabulary for statements about the
      workers of [Pool]. *)

From stdpp Require Import base gmap sets list strings pretty.
From Stdlib Require Import ZArith Lia Sorted.

Local Open Scope Z_scope.

(** ** Exceptions and results *)

(** The exceptions the modelled code can meet. *)
Inductive exn :=
  | Exception (msg : string)        (* [raise Exception(msg)] *)
  | AttributeError (attr : string)  (* an attribute that was never assigned *)
  | ValueError                      (* [time.sleep] of a negative length;
                                       a text that [json.loads] refuses *)
  | OverflowError                   (* a number too large for its C type *)
  | OSError                         (* a system call that failed *)
  | TypeError                       (* [int(None)] *)
  | UnboundLocalError (var : string).

Inductive result (A : Type) :=
  | Ok (a : A)
  | Raise (e : exn).
Arguments Ok {A} a.
Arguments Raise {A} e.

#[global] Instance result_ret : MRet result := fun A a => Ok a.
#[global] Instance result_bind : MBind result := fun A B k m =>
  match m with
  | Ok a => k a
  | Raise e => Raise e
  end.

(** ** [_validInterval] *)

Module RangePartitioner.

(** A [datetime.date] is represented by its proleptic ordinal (a day
    number).  [strftime("%Y-%m-%d")] is injective on dates, so a stored
    interval [[start_str, finish_str]] is kept as the pair of dates. *)
Definition date := Z.
Definition interval := (date * date)%type.

Definition CAP : Z := 1000.

(** [start + (finish - start)/2]: the [timedelta] is halved and only its
    [days] field, the floor of the quotient, is added to a [date]. *)
Definition middle (start finish : date) : date := start + (finish - start) / 2.

Section Probe.

(** [total_count start finish] is the ["total_count"] field of
    [_readAPI(_getURL(1, start, finish))]. *)
Variable total_count : date -> date -> Z.

(** [_validInterval], threading the attribute [_intervals].  The fuel
    bounds the depth of the recursion; [None] is "depth exhausted". *)
Fixpoint _validInterval (fuel : nat) (start finish : date)
    (_intervals : list interval) : option (list interval) :=
  match fuel with
  | O => None
  | S fuel' =>
      if CAP <=? total_count start finish then
        match _validInterval fuel' start (middle start finish) _intervals with
        | Some _intervals' =>
            _validInterval fuel' (middle start finish) finish _intervals'
        | None => None
        end
      else Some (_intervals ++ [(start, finish)])
  end.

(** [calculateBestIntervals] resets [_intervals] and partitions the domain. *)
Definition calculateBestIntervals (fuel : nat) (first today : date)
    : option (list interval) :=
  _validInterval fuel first today [].

End Probe.

(** [tiles a b l]: the intervals of [l], read left to right, start at [a],
    end at [b], and each one starts where the previous one ended. *)
Inductive tiles : date -> date -> list interval -> Prop :=
  | tiles_leaf a b : tiles a b [(a, b)]
  | tiles_step a m b l : tiles m b l -> tiles a b ((a, m) :: l).

(** The same, as a check that computes. *)
Fixpoint tilesb (a b : date) (l : list interval) : bool :=
  match l with
  | [] => false
  | [(s, f)] => (s =? a) && (f =? b)
  | (s, f) :: l' => (s =? a) && tilesb f b l'
  end.

(** A probe that reports a full page count for every interval of at least
    one day, and nothing for a single instant. *)
Definition crowded (start finish : date) : Z :=
  if start =? finish then 0 else 1000.

(** A probe that always reports [CAP] matches. *)
Definition saturated (_ _ : date) : Z := 1000.

(** A probe proportional to the length of the interval: 300 per day. *)
Definition uniform (start finish : date) : Z := 300 * (finish - start).

End RangePartitioner.

(** ** [_readAPI] *)

Module RateLimitedClient.

(** What one [urllib.request.urlopen(req)] meets. *)
Inductive reply :=
  | Response (code : Z) (body : string)
      (* the call returned; [response.code] and the bytes of
         [response.read()] *)
  | HTTPError (code : Z) (reset : option Z)
      (* raised, with [getheader]; the [X-RateLimit-Reset] header as
         [int] reads it, [None] when the header is absent *)
  | URLError.
      (* raised, without [getheader] and without [code] *)

(** What the method does to the outside world. *)
Inductive event :=
  | Request (url : string)
  | Sleep (secs : Z).

Inductive ending (data : Type) :=
  | Returns (d : data)        (* the value of [json.loads] *)
  | Raises (e : exn)
  | Pending.                  (* the script ended inside the loop *)
Arguments Returns {data} d.
Arguments Raises {data} e.
Arguments Pending {data}.

(** The longest sleep in whole seconds that CPython takes: it keeps the
    length in nanoseconds in a signed 64-bit integer, and [2^63 - 1]
    nanoseconds are a little less than 9223372037 seconds. *)
Definition SLEEP_MAX : Z := 9223372036.

Section Platform.

(** [loads body] is [json.loads(body.decode('utf-8'))]: the value decoded,
    or the exception of a body that is not UTF-8 or not JSON. *)
Context {data : Type} (loads : string -> result data).

(** [naps secs]: the system call behind [time.sleep] takes a sleep of this
    length.  Which lengths it takes is the platform's business: where
    CPython sleeps until a deadline on the monotonic clock, the longest
    lengths below [SLEEP_MAX] put the deadline out of range and the call
    fails. *)
Variable naps : Z -> bool.

(** [time.sleep(secs)] of an [int]: the length is converted first, which
    raises [OverflowError] when the nanoseconds do not fit; it is then
    refused with [ValueError] when it is negative, and handed to the
    system otherwise. *)
Definition sleep (secs : Z) : result (list event) :=
  if (secs <? - SLEEP_MAX) || (SLEEP_MAX <? secs) then Raise OverflowError
  else if secs <? 0 then Raise ValueError
  else if naps secs then Ok [Sleep secs]
  else Raise OSError.

(** Line 231.  After the loop, [response] is the last value [urlopen]
    returned. *)
Definition read_response (response : option string) : ending data :=
  match response with
  | Some body =>
      match loads body with
      | Ok d => Returns d
      | Raise e => Raises e
      end
  | None => Raises (UnboundLocalError "response")
  end.

(** The [while code != 200] loop.  The script lists, attempt by attempt,
    the reply of the server and the reading of the clock ([now_sec]). *)
Fixpoint attempts (url : string) (script : list (reply * Z))
    (response : option string) : list event * ending data :=
  match script with
  | [] => ([], Pending)
  | (r, now_sec) :: script' =>
      match r with
      | Response code body =>
          if code =? 200 then ([Request url], read_response (Some body))
          else
            let '(evs, e) := attempts url script' (Some body) in
            (Request url :: evs, e)
      | HTTPError code None => ([Request url], Raises TypeError)
      | HTTPError code (Some reset) =>
          match sleep (reset - now_sec) with
          | Raise e => ([Request url], Raises e)
          | Ok slept =>
              if code =? 200 then (Request url :: slept, read_response response)
              else
                let '(evs, e) := attempts url script' response in
                (Request url :: slept ++ evs, e)
          end
      | URLError => ([Request url], Raises (AttributeError "code"))
      end
  end.

Definition _readAPI (url : string) (script : list (reply * Z))
    : list event * ending data :=
  attempts url script None.

End Platform.

(** A platform that takes every sleep CPython hands it, as [select]
    does. *)
Definition sound_sleeper (secs : Z) : bool := true.

(** A decoder to run examples with: a text that opens with a brace is
    taken for a JSON object and handed back as it is, every other text is
    refused as [json.loads] refuses what is not JSON. *)
Definition braced (body : string) : result string :=
  if String.prefix "{" body then Ok body else Raise ValueError.

(** The URLs of the requests of a trace. *)
Fixpoint requested (evs : list event) : list string :=
  match evs with
  | [] => []
  | Request url :: evs' => url :: requested evs'
  | Sleep _ :: evs' => requested evs'
  end.

End RateLimitedClient.

(** ** The object: [__init__], [readConfig], [_addUser], [getSortUsers] *)

Module City.

(** Modelled from the spec: the class [GitHubUser] (module [GitHubUser] of
    the repository, imported by this file with [from GitHubUser import *])
    is the EntityRecord: the login it was built from, a location string and
    the metrics read by the getters that [getSortUsers] names.  Counts are
    integers, the other fields are strings. *)
Record Profile := {
  location : string;
  contributions : Z;
  longestStreak : Z;
  currentStreak : Z;
  language : string;
  followers : Z;
  join : string;
  organizations : Z;
  numberOfRepositories : Z;
  stars : Z
}.

Record GitHubUser := {
  getName : string;      (* the argument of [GitHubUser(new_user)] *)
  data : Profile         (* what [getData()] loaded *)
}.

Definition getLocation (u : GitHubUser) : string := location (data u).
Definition getContributions (u : GitHubUser) : Z := contributions (data u).
Definition getLongestStreak (u : GitHubUser) : Z := longestStreak (data u).
Definition getCurrentStreak (u : GitHubUser) : Z := currentStreak (data u).
Definition getLanguage (u : GitHubUser) : string := language (data u).
Definition getFollowers (u : GitHubUser) : Z := followers (data u).
Definition getJoin (u : GitHubUser) : string := join (data u).
Definition getOrganizations (u : GitHubUser) : Z := organizations (data u).
Definition getNumberOfRepositories (u : GitHubUser) : Z :=
  numberOfRepositories (data u).
Definition getStars (u : GitHubUser) : Z := stars (data u).

(** The attributes of an instance.  An attribute is [None] until the first
    assignment to it; reading it before raises [AttributeError].  A lock is
    [true] while it is held.  ([_threads] and [_logger] are left out: the
    threads are the subject of [Pool], logging changes nothing here.) *)
Record GitHubCity := {
  _githubID : option (string);
  _githubSecret : option (string);
  _city : option (option string);
  _locations : option (list string);
  _urlLocations : option (string);
  _intervals : option (list (string * string));
  _lastDay : option (string);
  _excluded : option (gset string);
  _excludedLocations : option (gset string);
  _names : option (list string);
  _myusers : option (gset string);
  _dataUsers : option (list GitHubUser);
  _fin : option (bool);
  _lockGetUser : option (bool);
  _lockReadAddUser : option (bool)
}.

Definition set_githubID (v : string) (self : GitHubCity) : GitHubCity :=
  {| _githubID := Some v; _githubSecret := _githubSecret self;
     _city := _city self; _locations := _locations self;
     _urlLocations := _urlLocations self; _intervals := _intervals self;
     _lastDay := _lastDay self; _excluded := _excluded self;
     _excludedLocations := _excludedLocations self; _names := _names self;
     _myusers := _myusers self; _dataUsers := _dataUsers self;
     _fin := _fin self; _lockGetUser := _lockGetUser self;
     _lockReadAddUser := _lockReadAddUser self |}.

Definition set_githubSecret (v : string) (self : GitHubCity) : GitHubCity :=
  {| _githubID := _githubID self; _githubSecret := Some v;
     _city := _city self; _locations := _locations self;
     _urlLocations := _urlLocations self; _intervals := _intervals self;
     _lastDay := _lastDay self; _excluded := _excluded self;
     _excludedLocations := _excludedLocations self; _names := _names self;
     _myusers := _myusers self; _dataUsers := _dataUsers self;
     _fin := _fin self; _lockGetUser := _lockGetUser self;
     _lockReadAddUser := _lockReadAddUser self |}.

Definition set_city (v : option string) (self : GitHubCity) : GitHubCity :=
  {| _githubID := _githubID self; _githubSecret := _githubSecret self;
     _city := Some v; _locations := _locations self;
     _urlLocations := _urlLocations self; _intervals := _intervals self;
     _lastDay := _lastDay self; _excluded := _excluded self;
     _excludedLocations := _excludedLocations self; _names := _names self;
     _myusers := _myusers self; _dataUsers := _dataUsers self;
     _fin := _fin self; _lockGetUser := _lockGetUser self;
     _lockReadAddUser := _lockReadAddUser self |}.

Definition set_locations (v : list string) (self : GitHubCity) : GitHubCity :=
  {| _githubID := _githubID self; _githubSecret := _githubSecret self;
     _city := _city self; _locations := Some v;
     _urlLocations := _urlLocations self; _intervals := _intervals self;
     _lastDay := _lastDay self; _excluded := _excluded self;
     _excludedLocations := _excludedLocations self; _names := _names self;
     _myusers := _myusers self; _dataUsers := _dataUsers self;
     _fin := _fin self; _lockGetUser := _lockGetUser self;
     _lockReadAddUser := _lockReadAddUser self |}.

Definition set_urlLocations (v : string) (self : GitHubCity) : GitHubCity :=
  {| _githubID := _githubID self; _githubSecret := _githubSecret self;
     _city := _city self; _locations := _locations self;
     _urlLocations := Some v; _intervals := _intervals self;
     _lastDay := _lastDay self; _excluded := _excluded self;
     _excludedLocations := _excludedLocations self; _names := _names self;
     _myusers := _myusers self; _dataUsers := _dataUsers self;
     _fin := _fin self; _lockGetUser := _lockGetUser self;
     _lockReadAddUser := _lockReadAddUser self |}.

Definition set_intervals (v : list (string * string)) (self : GitHubCity) : GitHubCity :=
  {| _githubID := _githubID self; _githubSecret := _githubSecret self;
     _city := _city self; _locations := _locations self;
     _urlLocations := _urlLocations self; _intervals := Some v;
     _lastDay := _lastDay self; _excluded := _excluded self;
     _excludedLocations := _excludedLocations self; _names := _names self;
     _myusers := _myusers self; _dataUsers := _dataUsers self;
     _fin := _fin self; _lockGetUser := _lockGetUser self;
     _lockReadAddUser := _lockReadAddUser self |}.

Definition set_lastDay (v : string) (self : GitHubCity) : GitHubCity :=
  {| _githubID := _githubID self; _githubSecret := _githubSecret self;
     _city := _city self; _locations := _locations self;
     _urlLocations := _urlLocations self; _intervals := _intervals self;
     _lastDay := Some v; _excluded := _excluded self;
     _excludedLocations := _excludedLocations self; _names := _names self;
     _myusers := _myusers self; _dataUsers := _dataUsers self;
     _fin := _fin self; _lockGetUser := _lockGetUser self;
     _lockReadAddUser := _lockReadAddUser self |}.

Definition set_excluded (v : gset string) (self : GitHubCity) : GitHubCity :=
  {| _githubID := _githubID self; _githubSecret := _githubSecret self;
     _city := _city self; _locations := _locations self;
     _urlLocations := _urlLocations self; _intervals := _intervals self;
     _lastDay := _lastDay self; _excluded := Some v;
     _excludedLocations := _excludedLocations self; _names := _names self;
     _myusers := _myusers self; _dataUsers := _dataUsers self;
     _fin := _fin self; _lockGetUser := _lockGetUser self;
     _lockReadAddUser := _lockReadAddUser self |}.

Definition set_excludedLocations (v : gset string) (self : GitHubCity) : GitHubCity :=
  {| _githubID := _githubID self; _githubSecret := _githubSecret self;
     _city := _city self; _locations := _locations self;
     _urlLocations := _urlLocations self; _intervals := _intervals self;
     _lastDay := _lastDay self; _excluded := _excluded self;
     _excludedLocations := Some v; _names := _names self;
     _myusers := _myusers self; _dataUsers := _dataUsers self;
     _fin := _fin self; _lockGetUser := _lockGetUser self;
     _lockReadAddUser := _lockReadAddUser self |}.

Definition set_names (v : list string) (self : GitHubCity) : GitHubCity :=
  {| _githubID := _githubID self; _githubSecret := _githubSecret self;
     _city := _city self; _locations := _locations self;
     _urlLocations := _urlLocations self; _intervals := _intervals self;
     _lastDay := _lastDay self; _excluded := _excluded self;
     _excludedLocations := _excludedLocations self; _names := Some v;
     _myusers := _myusers self; _dataUsers := _dataUsers self;
     _fin := _fin self; _lockGetUser := _lockGetUser self;
     _lockReadAddUser := _lockReadAddUser self |}.

Definition set_myusers (v : gset string) (self : GitHubCity) : GitHubCity :=
  {| _githubID := _githubID self; _githubSecret := _githubSecret self;
     _city := _city self; _locations := _locations self;
     _urlLocations := _urlLocations self; _intervals := _intervals self;
     _lastDay := _lastDay self; _excluded := _excluded self;
     _excludedLocations := _excludedLocations self; _names := _names self;
     _myusers := Some v; _dataUsers := _dataUsers self; _fin := _fin self;
     _lockGetUser := _lockGetUser self;
     _lockReadAddUser := _lockReadAddUser self |}.

Definition set_dataUsers (v : list GitHubUser) (self : GitHubCity) : GitHubCity :=
  {| _githubID := _githubID self; _githubSecret := _githubSecret self;
     _city := _city self; _locations := _locations self;
     _urlLocations := _urlLocations self; _intervals := _intervals self;
     _lastDay := _lastDay self; _excluded := _excluded self;
     _excludedLocations := _excludedLocations self; _names := _names self;
     _myusers := _myusers self; _dataUsers := Some v; _fin := _fin self;
     _lockGetUser := _lockGetUser self;
     _lockReadAddUser := _lockReadAddUser self |}.

Definition set_fin (v : bool) (self : GitHubCity) : GitHubCity :=
  {| _githubID := _githubID self; _githubSecret := _githubSecret self;
     _city := _city self; _locations := _locations self;
     _urlLocations := _urlLocations self; _intervals := _intervals self;
     _lastDay := _lastDay self; _excluded := _excluded self;
     _excludedLocations := _excludedLocations self; _names := _names self;
     _myusers := _myusers self; _dataUsers := _dataUsers self;
     _fin := Some v; _lockGetUser := _lockGetUser self;
     _lockReadAddUser := _lockReadAddUser self |}.

Definition set_lockGetUser (v : bool) (self : GitHubCity) : GitHubCity :=
  {| _githubID := _githubID self; _githubSecret := _githubSecret self;
     _city := _city self; _locations := _locations self;
     _urlLocations := _urlLocations self; _intervals := _intervals self;
     _lastDay := _lastDay self; _excluded := _excluded self;
     _excludedLocations := _excludedLocations self; _names := _names self;
     _myusers := _myusers self; _dataUsers := _dataUsers self;
     _fin := _fin self; _lockGetUser := Some v;
     _lockReadAddUser := _lockReadAddUser self |}.

Definition set_lockReadAddUser (v : bool) (self : GitHubCity) : GitHubCity :=
  {| _githubID := _githubID self; _githubSecret := _githubSecret self;
     _city := _city self; _locations := _locations self;
     _urlLocations := _urlLocations self; _intervals := _intervals self;
     _lastDay := _lastDay self; _excluded := _excluded self;
     _excludedLocations := _excludedLocations self; _names := _names self;
     _myusers := _myusers self; _dataUsers := _dataUsers self;
     _fin := _fin self; _lockGetUser := _lockGetUser self;
     _lockReadAddUser := Some v |}.

(** An instance before any assignment. *)
Definition blank : GitHubCity :=
  {| _githubID := None; _githubSecret := None; _city := None;
     _locations := None; _urlLocations := None; _intervals := None;
     _lastDay := None; _excluded := None; _excludedLocations := None;
     _names := None; _myusers := None; _dataUsers := None; _fin := None;
     _lockGetUser := None; _lockReadAddUser := None |}.

(** Reading [self.<name>]. *)
Definition attr {A : Type} (name : string) (field : option A) : result A :=
  match field with
  | Some a => Ok a
  | None => Raise (AttributeError name)
  end.

(** The persisted configuration, a dictionary with these six keys. *)
Record Config := {
  cfg_name : option string;
  cfg_intervals : list (string * string);
  cfg_last_date : string;
  cfg_locations : list string;
  cfg_excludedUsers : list string;
  cfg_excludedLocations : list string
}.

(** [s in t] on strings. *)
Fixpoint contains (s t : string) : bool :=
  String.prefix s t ||
  match t with
  | EmptyString => false
  | String _ t' => contains s t'
  end.

(** [any(s in userLoc for s in excludedLocations)]. *)
Definition any_in (excludedLocations : gset string) (userLoc : string) : bool :=
  existsb (fun s => contains s userLoc) (elements excludedLocations).

(** [for e in xs: target.add(e)], where reading [target] may raise.  The
    attribute is only read when the loop body runs. *)
Fixpoint add_each (name : string) (target : option (gset string))
    (xs : list string) : result (option (gset string)) :=
  match xs with
  | [] => Ok target
  | e :: xs' =>
      s ← attr name target;
      add_each name (Some ({[ e ]} ∪ s)) xs'
  end.

Section Methods.

(** [urllib.parse.quote]. *)
Variable quote : string -> string.

(** The detail endpoint: what [getData()] loads for a login. *)
Variable getData : string -> Profile.

(** [_addLocationsToURL]: the argument is not used, the loop runs over
    [self._locations]. *)
Definition _addLocationsToURL (self : GitHubCity) (locations : list string)
    : result GitHubCity :=
  ls ← attr "_locations" (_locations self);
  Ok (set_urlLocations
        (fold_left (fun url l => (url +:+ "+location:" +:+ quote l)%string) ls
           ""%string)
        self).

Definition readConfig (self : GitHubCity) (config : Config)
    : result GitHubCity :=
  let self := set_city (cfg_name config) self in
  let self := set_intervals (cfg_intervals config) self in
  let self := set_lastDay (cfg_last_date config) self in
  let self := set_locations (cfg_locations config) self in
  ex ← add_each "_excluded" (_excluded self) (cfg_excludedUsers config);
  exl ← add_each "_excludedLocations" (_excludedLocations self)
          (cfg_excludedLocations config);
  let self :=
    {| _githubID := _githubID self; _githubSecret := _githubSecret self;
       _city := _city self; _locations := _locations self;
       _urlLocations := _urlLocations self; _intervals := _intervals self;
       _lastDay := _lastDay self; _excluded := ex;
       _excludedLocations := exl; _names := _names self;
       _myusers := _myusers self; _dataUsers := _dataUsers self;
       _fin := _fin self; _lockGetUser := _lockGetUser self;
       _lockReadAddUser := _lockReadAddUser self |} in
  ls ← attr "_locations" (_locations self);
  _addLocationsToURL self ls.

(** Truth value of an optional list argument: [None] and [[]] are false. *)
Definition truthy {A : Type} (l : option (list A)) : bool :=
  match l with
  | Some (_ :: _) => true
  | _ => false
  end.

(** The fresh branch of the constructor ([config] absent). *)
Definition init_fresh (self : GitHubCity) (city : option string)
    (locations excludedUsers excludedLocations : option (list string))
    : GitHubCity :=
  let _locations :=
    match locations with
    | Some (l :: ls) => l :: ls
    | _ =>
        match city with
        | Some (String c cs) => [String c cs]
        | _ => []
        end
    end in
  let self := set_city city self in
  let self := set_locations _locations self in
  let self :=
    set_excluded
      (if truthy excludedUsers then list_to_set (default [] excludedUsers)
       else ∅) self in
  set_excludedLocations
    (if truthy excludedLocations
     then list_to_set (default [] excludedLocations) else ∅) self.

Definition __init__ (githubID githubSecret : option string)
    (config : option Config) (city : option string)
    (locations excludedUsers excludedLocations : option (list string))
    (debug : bool) : result GitHubCity :=
  match githubID with
  | None => Raise (Exception "No GitHub ID inserted")
  | Some id =>
      let self := set_githubID id blank in
      match githubSecret with
      | None => Raise (Exception "No GitHub Secret inserted")
      | Some secret =>
          let self := set_githubSecret secret self in
          self ←
            match config with
            | Some cfg => readConfig self cfg
            | None =>
                Ok (init_fresh self city locations excludedUsers
                      excludedLocations)
            end;
          let self := set_names [] self in
          let self := set_myusers ∅ self in
          let self := set_dataUsers [] self in
          ls ← attr "_locations" (_locations self);
          self ← _addLocationsToURL self ls;
          let self := set_fin false self in
          let self := set_lockGetUser false self in
          Ok (set_lockReadAddUser false self)
      end
  end.

(** *** [_addUser], statement by statement *)

(** Where a call of [_addUser] stands: the line it executes next. *)
Inductive addUser_pc :=
  | L179                      (* [_lockReadAddUser.acquire()] *)
  | L180                      (* the [if] *)
  | L181                      (* [_lockReadAddUser.release()] *)
  | L182                      (* [_myusers.add(new_user)] *)
  | L183                      (* [GitHubUser(new_user)], [getData()] *)
  | L186 (myNewUser : GitHubUser)  (* the location test and the append *)
  | L192                      (* [release()] of the [else] branch *)
  | L_end.                    (* the call has returned *)

(** What a step does: it moves on, it waits for a lock, or it raises. *)
Inductive outcome (S : Type) :=
  | Next (s : S)
  | Blocks
  | Throws (e : exn).
Arguments Next {S} s.
Arguments Blocks {S}.
Arguments Throws {S} e.

Definition of_result {S : Type} (r : result S) : outcome S :=
  match r with
  | Ok s => Next s
  | Raise e => Throws e
  end.

(** One step of [_addUser(new_user)]; the list holds the logins whose
    detail record the step fetched. *)
Definition step_addUser (new_user : string) (pc : addUser_pc)
    (self : GitHubCity) : outcome (addUser_pc * GitHubCity * list string) :=
  match pc with
  | L179 =>
      match attr "_lockReadAddUser" (_lockReadAddUser self) with
      | Raise e => Throws e
      | Ok true => Blocks
      | Ok false => Next (L180, set_lockReadAddUser true self, [])
      end
  | L180 =>
      of_result (
        seen ← attr "_myusers" (_myusers self);
        if decide (new_user ∈ seen) then Ok (L192, self, [])
        else
          excluded ← attr "_excluded" (_excluded self);
          if decide (new_user ∈ excluded) then Ok (L192, self, [])
          else Ok (L181, self, []))
  | L181 =>
      of_result (
        _ ← attr "_lockReadAddUser" (_lockReadAddUser self);
        Ok (L182, set_lockReadAddUser false self, []))
  | L182 =>
      of_result (
        seen ← attr "_myusers" (_myusers self);
        Ok (L183, set_myusers ({[ new_user ]} ∪ seen) self, []))
  | L183 =>
      Next (L186 {| getName := new_user; data := getData new_user |},
            self, [new_user])
  | L186 myNewUser =>
      of_result (
        excludedLocations ←
          attr "_excludedLocations" (_excludedLocations self);
        if any_in excludedLocations (getLocation myNewUser)
        then Ok (L_end, self, [])
        else
          users ← attr "_dataUsers" (_dataUsers self);
          Ok (L_end, set_dataUsers (users ++ [myNewUser]) self, []))
  | L192 =>
      of_result (
        _ ← attr "_lockReadAddUser" (_lockReadAddUser self);
        Ok (L_end, set_lockReadAddUser false self, []))
  | L_end => Blocks
  end.

(** How a sequential call ends. *)
Inductive ending :=
  | Returns
  | Raises (e : exn)
  | Waits        (* on a lock that nobody will release *)
  | Unfinished.  (* more steps than given *)

Fixpoint run_addUser (steps : nat) (new_user : string) (pc : addUser_pc)
    (self : GitHubCity) (fetched : list string)
    : ending * GitHubCity * list string :=
  match pc with
  | L_end => (Returns, self, fetched)
  | _ =>
      match steps with
      | O => (Unfinished, self, fetched)
      | S steps' =>
          match step_addUser new_user pc self with
          | Next (pc', self', fs) =>
              run_addUser steps' new_user pc' self' (fetched ++ fs)
          | Blocks => (Waits, self, fetched)
          | Throws e => (Raises e, self, fetched)
          end
      end
  end.

(** [_addUser] called by a single thread: the longest path has six
    statements. *)
Definition _addUser (self : GitHubCity) (new_user : string)
    : ending * GitHubCity * list string :=
  run_addUser 6 new_user L179 self [].

(** *** [getSortUsers] *)

(** [list.sort(key=..., reverse=True)]: descending, and elements with
    equal keys keep their order. *)
Fixpoint insert_desc {K : Type} (ltb : K -> K -> bool)
    (key : GitHubUser -> K) (u : GitHubUser) (l : list GitHubUser)
    : list GitHubUser :=
  match l with
  | [] => [u]
  | v :: l' =>
      if ltb (key u) (key v) then v :: insert_desc ltb key u l'
      else u :: v :: l'
  end.

Definition sort_desc {K : Type} (ltb : K -> K -> bool)
    (key : GitHubUser -> K) (l : list GitHubUser) : list GitHubUser :=
  foldr (insert_desc ltb key) [] l.

Definition sort_by {K : Type} (ltb : K -> K -> bool)
    (key : GitHubUser -> K) (self : GitHubCity)
    : result (option (list GitHubUser)) * GitHubCity :=
  match attr "_dataUsers" (_dataUsers self) with
  | Raise e => (Raise e, self)
  | Ok users =>
      let sorted := sort_desc ltb key users in
      (Ok (Some sorted), set_dataUsers sorted self)
  end.

(** The value returned ([None] of Python is [Ok None]) and the instance
    after the call. *)
Definition getSortUsers (self : GitHubCity) (order : string)
    : result (option (list GitHubUser)) * GitHubCity :=
  if String.eqb order "contributions" then sort_by Z.ltb getContributions self
  else if String.eqb order "name" then sort_by String.ltb getName self
  else if String.eqb order "lstreak" then sort_by Z.ltb getLongestStreak self
  else if String.eqb order "cstreak" then sort_by Z.ltb getCurrentStreak self
  else if String.eqb order "language" then sort_by String.ltb getLanguage self
  else if String.eqb order "followers" then sort_by Z.ltb getFollowers self
  else if String.eqb order "join" then sort_by String.ltb getJoin self
  else if String.eqb order "organizations"
    then sort_by Z.ltb getOrganizations self
  else if String.eqb order "respositories"
    then sort_by Z.ltb getNumberOfRepositories self
  else if String.eqb order "stars" then sort_by Z.ltb getStars self
  else (Ok None, self).

End Methods.

Arguments Next {S} s.
Arguments Blocks {S}.
Arguments Throws {S} e.

End City.

(** ** The worker threads: [_processUsers] under a schedule *)

Module Pool.

Import City.

(** Where a thread running [_processUsers] stands. *)
Inductive pc :=
  | L275                         (* [while self._names.empty(): pass] *)
  | L278                         (* [while not self._fin or not ...empty()] *)
  | L279                         (* [_lockGetUser.acquire()] *)
  | L281                         (* [self._names.get(False)] *)
  | L283                         (* [except queue.Empty]: release, [return] *)
  | L286 (new_user : string)     (* [_lockGetUser.release()] *)
  | L287 (new_user : string) (at_ : addUser_pc)  (* inside [_addUser] *)
  | Returned
  | Crashed (e : exn).

Section Threads.

Variable getData : string -> Profile.

(** One statement of [_processUsers]. *)
Definition step_processUsers (p : pc) (self : GitHubCity)
    : outcome (pc * GitHubCity * list string) :=
  match p with
  | L275 =>
      of_result (
        names ← attr "_names" (_names self);
        match names with
        | [] => Ok (L275, self, [])
        | _ :: _ => Ok (L278, self, [])
        end)
  | L278 =>
      of_result (
        fin ← attr "_fin" (_fin self);
        if negb fin then Ok (L279, self, [])
        else
          names ← attr "_names" (_names self);
          match names with
          | [] => Ok (Returned, self, [])
          | _ :: _ => Ok (L279, self, [])
          end)
  | L279 =>
      match attr "_lockGetUser" (_lockGetUser self) with
      | Raise e => Throws e
      | Ok true => Blocks
      | Ok false => Next (L281, set_lockGetUser true self, [])
      end
  | L281 =>
      of_result (
        names ← attr "_names" (_names self);
        match names with
        | [] => Ok (L283, self, [])
        | new_user :: rest => Ok (L286 new_user, set_names rest self, [])
        end)
  | L283 =>
      of_result (
        _ ← attr "_lockGetUser" (_lockGetUser self);
        Ok (Returned, set_lockGetUser false self, []))
  | L286 new_user =>
      of_result (
        _ ← attr "_lockGetUser" (_lockGetUser self);
        Ok (L287 new_user L179, set_lockGetUser false self, []))
  | L287 new_user L_end => Next (L278, self, [])
  | L287 new_user at_ =>
      match step_addUser getData new_user at_ self with
      | Next (at', self', fs) => Next (L287 new_user at', self', fs)
      | Blocks => Blocks
      | Throws e => Throws e
      end
  | Returned => Blocks
  | Crashed _ => Blocks
  end.

(** The instance shared by the threads, the threads, and the logins whose
    detail record has been fetched so far. *)
Record pool := {
  self : GitHubCity;
  threads : list pc;
  fetched : list string
}.

(** What the scheduler may pick next: a statement of worker [i], or a
    statement of the producer ([getCityUsers] with [_getPeriodUsers]). *)
Inductive action :=
  | Worker (i : nat)
  | Put (login : string)   (* [self._names.put(u["login"])] *)
  | Finish.                (* [self._fin = True] *)

(** One action; [None] when the action cannot be taken (no such thread, a
    thread that waits for a lock or has ended). *)
Definition exec (a : action) (c : pool) : option pool :=
  match a with
  | Worker i =>
      match threads c !! i with
      | None => None
      | Some p =>
          match step_processUsers p (self c) with
          | Next (p', self', fs) =>
              Some {| self := self'; threads := <[ i := p' ]> (threads c);
                      fetched := fetched c ++ fs |}
          | Blocks => None
          | Throws e =>
              Some {| self := self c;
                      threads := <[ i := Crashed e ]> (threads c);
                      fetched := fetched c |}
          end
      end
  | Put login =>
      match _names (self c) with
      | None => None
      | Some names =>
          Some {| self := set_names (names ++ [login]) (self c);
                  threads := threads c; fetched := fetched c |}
      end
  | Finish =>
      Some {| self := set_fin true (self c); threads := threads c;
              fetched := fetched c |}
  end.

Fixpoint run (schedule : list action) (c : pool) : option pool :=
  match schedule with
  | [] => Some c
  | a :: schedule' =>
      match exec a c with
      | Some c' => run schedule' c'
      | None => None
      end
  end.

(** [_launchThreads(numThreads)] on an instance. *)
Definition launch (numThreads : nat) (obj : GitHubCity) : pool :=
  {| self := obj; threads := replicate numThreads L275; fetched := [] |}.

(** The logins of the records of the result list. *)
Definition result_names (c : pool) : list string :=
  getName <$> default [] (_dataUsers (self c)).

End Threads.

(** *** What every schedule preserves *)

Section Exclusions.

Variable excluded excludedLocations : gset string.

(** A record that may stand in the result list. *)
Definition record_ok (r : GitHubUser) : Prop :=
  (getName r ∉ excluded)
  /\ any_in excludedLocations (getLocation r) = false.

(** The exclusion sets are the given ones and the result list holds only
    records that may stand there. *)
Definition self_ok (s : GitHubCity) : Prop :=
  _excluded s = Some excluded
  /\ _excludedLocations s = Some excludedLocations
  /\ Forall record_ok (default [] (_dataUsers s)).

(** A thread that is past the test of line 180 holds a login that is not
    excluded. *)
Definition thread_ok (p : pc) : Prop :=
  match p with
  | L287 new_user (L181 | L182 | L183) => new_user ∉ excluded
  | L287 _ (L186 myNewUser) => getName myNewUser ∉ excluded
  | _ => True
  end.

Definition pool_ok (c : pool) : Prop :=
  self_ok (self c)
  /\ Forall thread_ok (threads c)
  /\ Forall (fun login => login ∉ excluded) (fetched c).

End Exclusions.

(** What the only worker of a pool knows about the login it holds: not
    seen yet before line 182, seen but without a record after it. *)
Definition at_ok (seen : gset string) (names : list string) (p : pc) : Prop :=
  match p with
  | L287 new_user (L181 | L182) => new_user ∉ seen
  | L287 new_user L183 => new_user ∈ seen /\ (new_user ∉ names)
  | L287 _ (L186 myNewUser) =>
      getName myNewUser ∈ seen /\ (getName myNewUser ∉ names)
  | _ => True
  end.

(** The result list has one record per login at most, every login with a
    record is in the seen-set, and the worker stands as [at_ok] says. *)
Definition tidy (s : GitHubCity) (p : pc) : Prop :=
  exists seen users,
    _myusers s = Some seen
    /\ _dataUsers s = Some users
    /\ NoDup (getName <$> users)
    /\ (forall n, n ∈ getName <$> users -> n ∈ seen)
    /\ at_ok seen (getName <$> users) p.

Definition pool_tidy (c : pool) : Prop :=
  exists p, threads c = [p] /\ tidy (self c) p.

(** [n] consecutive statements of worker [i]. *)
Definition burst (i : nat) (n : nat) : list action := replicate n (Worker i).

(** A detail endpoint under which every login lives in Granada. *)
Definition granada (login : string) : Profile :=
  {| location := "Granada, Spain"; contributions := 0; longestStreak := 0;
     currentStreak := 0; language := "Python"; followers := 0;
     join := "2015-01-01"; organizations := 0; numberOfRepositories := 0;
     stars := 0 |}.

(** A freshly constructed instance for the city of Granada, without
    exclusions. *)
Definition granada_city : GitHubCity :=
  match __init__ (fun l => l) (Some "id"%string) (Some "secret"%string) None
          (Some "Granada"%string) None None None false with
  | Ok self => self
  | Raise _ => blank
  end.

(** The same, with the location term ["Spain"] excluded. *)
Definition spain_excluded : GitHubCity :=
  match __init__ (fun l => l) (Some "id"%string) (Some "secret"%string) None
          (Some "Granada"%string) None None (Some ["Spain"%string]) false with
  | Ok self => self
  | Raise _ => blank
  end.

(** Two workers and the login ["a"] found twice by the producer.  Each
    worker takes one copy off the queue (five statements); worker 0 then
    runs lines 179 to 181 of [_addUser], worker 1 does the same, and only
    then does either of them reach line 182. *)
Definition both_pass_the_test : list action :=
  [Put "a"; Put "a"]%string ++ burst 0 5 ++ burst 1 5 ++ burst 0 3 ++ burst 1 3.

(** The same schedule, continued until both calls of [_addUser] return. *)
Definition both_enrich : list action :=
  both_pass_the_test ++ burst 0 3 ++ burst 1 3.

(** One worker and one login: the worker handles the login (twelve
    statements), comes back to line 278, and takes lines 278, 279, 281 and
    283 on the queue that is empty by then. *)
Definition drained_once : list action := Put "a"%string :: burst 0 16.

(** One worker and the login ["a"] found twice: the worker handles the
    first copy (twelve statements) and skips the second (eight). *)
Definition one_by_one : list action :=
  [Put "a"; Put "a"]%string ++ burst 0 20.

(** The logins of the seen-set, as a list. *)
Definition seen_names (c : pool) : list string :=
  elements (default ∅ (_myusers (self c))).

End Pool.


(** ** Rate limits in a row *)

Module RateLimits.
Import RateLimitedClient.

(** A rate-limited reply: an HTTP error [code] whose [X-RateLimit-Reset]
    header says [reset], met when the clock reads [now_sec]. *)
Record limit := {
  lim_code : Z;
  lim_reset : Z;
  lim_now : Z
}.

Definition limited (w : limit) : reply * Z :=
  (HTTPError (lim_code w) (Some (lim_reset w)), lim_now w).

(** A limit the loop can sit out: not the code 200, and a wait that
    [time.sleep] accepts, neither negative nor over [SLEEP_MAX], and that
    the system takes. *)
Definition absorbable (naps : Z -> bool) (w : limit) : Prop :=
  lim_code w <> 200
  /\ 0 <= lim_reset w - lim_now w <= SLEEP_MAX
  /\ naps (lim_reset w - lim_now w) = true.

(** What sitting out a list of limits looks like from outside. *)
Definition waiting (url : string) (ws : list limit) : list event :=
  flat_map (fun w => [Request url; Sleep (lim_reset w - lim_now w)]) ws.

(** The seconds slept in a trace. *)
Fixpoint slept (evs : list event) : Z :=
  match evs with
  | [] => 0
  | Sleep secs :: evs' => secs + slept evs'
  | Request _ :: evs' => slept evs'
  end.

End RateLimits.

(** ** [getTotalUsers] and what sorting means *)

Module Sorting.
Import City.

(** [getTotalUsers]. *)
Definition getTotalUsers (self : GitHubCity) : result nat :=
  users ← attr "_dataUsers" (_dataUsers self);
  Ok (length users).

(** No user stands before a user with a larger key. *)
Definition descending {K : Type} (ltb : K -> K -> bool)
    (key : GitHubUser -> K) (l : list GitHubUser) : Prop :=
  Sorted (fun u v => ltb (key u) (key v) = false) l.

(** The field names [getSortUsers] knows. *)
Definition known_orders : list string :=
  ["contributions"; "name"; "lstreak"; "cstreak"; "language"; "followers";
   "join"; "organizations"; "respositories"; "stars"]%string.

(** What a call with a known field does: it returns the stored list, which
    now holds the same users with the larger keys first. *)
Definition sorts_by {K : Type} (ltb : K -> K -> bool) (key : GitHubUser -> K)
    (self : GitHubCity) (users : list GitHubUser) (order : string) : Prop :=
  exists sorted,
    getSortUsers self order = (Ok (Some sorted), set_dataUsers sorted self)
    /\ sorted ≡ₚ users
    /\ descending ltb key sorted
    /\ getSortUsers (set_dataUsers sorted self) order
       = (Ok (Some sorted), set_dataUsers sorted self).

End Sorting.

(** ** What a worker working alone fetches and keeps *)

Module Calls.

Import City.

(** The logins of [logins] that are not in [skip], each at its first
    occurrence only. *)
Fixpoint firsts (skip : gset string) (logins : list string) : list string :=
  match logins with
  | [] => []
  | login :: logins' =>
      if decide (login ∈ skip) then firsts skip logins'
      else login :: firsts ({[ login ]} ∪ skip) logins'
  end.

Section Oracle.

Variable getData : string -> Profile.

(** The record [_addUser] builds for a login. *)
Definition record_of (login : string) : GitHubUser :=
  {| getName := login; data := getData login |}.

(** The logins whose record passes the location filter. *)
Definition kept (excludedLocations : gset string) (logins : list string)
    : list string :=
  filter (fun login =>
            any_in excludedLocations (location (getData login)) = false)
    logins.

End Oracle.

End Calls.

(** ** [getConfig] *)

Module Persist.
Import City.

(** [getConfig].  The two exclusion sets are listed in the order in which
    the sets are iterated. *)
Definition getConfig (self : GitHubCity) : result Config :=
  name ← attr "_city" (_city self);
  intervals ← attr "_intervals" (_intervals self);
  last_date ← attr "_lastDay" (_lastDay self);
  excluded ← attr "_excluded" (_excluded self);
  excludedLocations ← attr "_excludedLocations" (_excludedLocations self);
  locations ← attr "_locations" (_locations self);
  Ok {| cfg_name := name; cfg_intervals := intervals;
        cfg_last_date := last_date; cfg_locations := locations;
        cfg_excludedUsers := elements excluded;
        cfg_excludedLocations := elements excludedLocations |}.

(** The text [_addLocationsToURL] builds for a list of locations. *)
Definition location_terms (quote : string -> string) (locations : list string)
    : string :=
  fold_left (fun url l => (url +:+ "+location:" +:+ quote l)%string) locations
    ""%string.

(** The attributes that only the crawl itself changes are the same in two
    instances. *)
Definition same_crawl_state (a b : GitHubCity) : Prop :=
  _githubID a = _githubID b
  /\ _githubSecret a = _githubSecret b
  /\ _names a = _names b
  /\ _myusers a = _myusers b
  /\ _dataUsers a = _dataUsers b
  /\ _fin a = _fin b
  /\ _lockGetUser a = _lockGetUser b
  /\ _lockReadAddUser a = _lockReadAddUser b.

End Persist.

(** ** The search: [_getURL], [_getPeriodUsers], [getCityUsers] *)

Module Crawler.
Import City Pool.

(** The body of a search reply, as far as the class reads it: the field
    [total_count] and the [login] of every element of [items]. *)
Record SearchData := {
  total_count : Z;
  items : list string
}.

(** Truth value of an optional string argument: [None] and [""] are
    false. *)
Definition given (s : option string) : bool :=
  match s with
  | Some (String _ _) => true
  | _ => false
  end.

(** [_getURL]; [str(page)] is the decimal numeral. *)
Definition _getURL (self : GitHubCity) (page : Z)
    (start_date final_date : option string) (order : string) : result string :=
  id ← attr "_githubID" (_githubID self);
  secret ← attr "_githubSecret" (_githubSecret self);
  locations ← attr "_urlLocations" (_urlLocations self);
  if negb (given start_date) || negb (given final_date) then
    Ok ("https://api.github.com/search/users?client_id=" +:+ id
        +:+ "&client_secret=" +:+ secret
        +:+ "&order=desc&q=sort:joined+type:user" +:+ locations
        +:+ "&sort=joined&order=asc&per_page=100&page=" +:+ pretty page)%string
  else
    Ok ("https://api.github.com/search/users?client_id=" +:+ id
        +:+ "&client_secret=" +:+ secret
        +:+ "&order=desc&q=sort:joined+type:user" +:+ locations
        +:+ "+created:" +:+ default "" start_date
        +:+ ".." +:+ default "" final_date
        +:+ "&sort=joined&order=" +:+ order
        +:+ "&per_page=100&page=" +:+ pretty page)%string.

(** Rounding to the nearest integer, ties to the even one, of [num / den]
    for [num >= 0] and [den > 0]. *)
Definition round_half_even (num den : Z) : Z :=
  let q := num / den in
  let r := num mod den in
  if 2 * r <? den then q
  else if den <? 2 * r then q + 1
  else if Z.even q then q else q + 1.

(** [int(n / 100)] for an [int] [n].  The division is the true division of
    Python 3: its result is the [float] nearest to the quotient, ties to
    even, and [OverflowError] when that is [2^1024] or more; [int] then
    drops the fraction.  The quotient of [a = |n| >= 1] is at least
    [1 / 128], so [Z.log2 (a * 128 / 100) - 7] is the integer part of its
    binary logarithm, and [e] is the exponent under which it has a
    mantissa [m] of 53 bits: the [float] is [m * 2^e]. *)
Definition int_div_100 (n : Z) : result Z :=
  if n =? 0 then Ok 0
  else
    let a := Z.abs n in
    let e := Z.log2 (a * 128 / 100) - 7 - 52 in
    if 0 <=? e then
      let m := round_half_even a (100 * 2 ^ e) in
      if 2 ^ 1024 <=? m * 2 ^ e then Raise OverflowError
      else Ok (Z.sgn n * (m * 2 ^ e))
    else
      let m := round_half_even (a * 2 ^ (- e)) 100 in
      Ok (Z.sgn n * (m / 2 ^ (- e))).

(** What the producer has done when it stops: the URLs it requested, the
    actions it added to the schedule, and the exception it stopped on, if
    any. *)
Record walk := {
  asked : list string;
  fed : list action;
  raised : option exn
}.

Definition finished : walk := {| asked := []; fed := []; raised := None |}.

Definition stopped (e : exn) : walk :=
  {| asked := []; fed := []; raised := Some e |}.

(** [w], after the requests [urls] and the actions [acts]. *)
Definition later (urls : list string) (acts : list action) (w : walk) : walk :=
  {| asked := urls ++ asked w; fed := acts ++ fed w; raised := raised w |}.

Section Api.

(** What a call of [_readAPI] that returns hands back for a URL. *)
Variable api : string -> SearchData.

(** [for u in data['items']: self._names.put(u["login"])], as the actions
    it adds to a schedule; the attribute is read once per element. *)
Definition put_items (self : GitHubCity) (logins : list string)
    : result (list action) :=
  match logins with
  | [] => Ok []
  | _ :: _ =>
      _ ← attr "_names" (_names self);
      Ok (Put <$> logins)
  end.

(** The [while total_pages >= page] loop of [_getPeriodUsers].  [None] is
    "more rounds than given". *)
Fixpoint period_pages (rounds : nat) (self : GitHubCity)
    (start_date final_date : string) (page total_pages : Z) : option walk :=
  match rounds with
  | O => None
  | S rounds' =>
      if total_pages <? page then Some finished
      else
        match _getURL self page (Some start_date) (Some final_date) "asc" with
        | Raise e => Some (stopped e)
        | Ok url =>
            let data := api url in
            match put_items self (items data) with
            | Raise e => Some (later [url] [] (stopped e))
            | Ok puts =>
                match int_div_100 (total_count data) with
                | Raise e => Some (later [url] puts (stopped e))
                | Ok hundreds =>
                    later [url] puts
                      <$> period_pages rounds' self start_date final_date
                            (page + 1) (hundreds + 1)
                end
            end
        end
  end.

(** [_getPeriodUsers]: the first request, whose reply is not used, and the
    loop. *)
Definition _getPeriodUsers (rounds : nat) (self : GitHubCity)
    (start_date final_date : string) : option walk :=
  match _getURL self 1 (Some start_date) (Some final_date) "asc" with
  | Raise e => Some (stopped e)
  | Ok url =>
      later [url] [] <$> period_pages rounds self start_date final_date 1 10000
  end.

(** [for i in self._intervals: self._getPeriodUsers(i[0], i[1])]. *)
Fixpoint periods (rounds : nat) (self : GitHubCity)
    (intervals : list (string * string)) : option walk :=
  match intervals with
  | [] => Some finished
  | (start_date, final_date) :: intervals' =>
      match _getPeriodUsers rounds self start_date final_date with
      | None => None
      | Some w =>
          match raised w with
          | Some _ => Some w
          | None => later (asked w) (fed w) <$> periods rounds self intervals'
          end
      end
  end.

(** How far [getCityUsers] gets before it waits for the workers. *)
Inductive crawl :=
  | NotStarted (e : exn)
      (* raised before any thread was started *)
  | Started (c : pool) (producer : walk).
      (* the pool as launched, and what the producer does while the
         workers run *)

(** [self._fin = True], unless an exception came first. *)
Definition finish (w : walk) : walk :=
  match raised w with
  | Some _ => w
  | None => {| asked := asked w; fed := fed w ++ [Finish]; raised := None |}
  end.

(** [getCityUsers] up to the [join]s. *)
Definition getCityUsers (rounds : nat) (self : GitHubCity) : option crawl :=
  let self := set_fin false self in
  match _getURL self 1 None None "asc" with
  | Raise e => Some (NotStarted e)
  | Ok comprobationURL =>
      let c := launch 20 self in
      match attr "_intervals" (_intervals self) with
      | Raise e => Some (Started c (later [comprobationURL] [] (stopped e)))
      | Ok intervals =>
          w ← periods rounds self intervals;
          Some (Started c (later [comprobationURL] [] (finish w)))
      end
  end.

End Api.

(** The pages [first], [first + 1], ... up to [last]. *)
Definition pages_from (first last : Z) : list Z :=
  seqZ first (last + 1 - first).

End Crawler.


(** ** Schedules without a login *)

Module Pipeline.
Import City Pool.

(** An action of a worker, or the producer's [_fin = True]: anything but a
    login put on the queue. *)
Definition puts_nothing (a : action) : bool :=
  match a with
  | Put _ => false
  | _ => true
  end.

(** An action of a schedule that runs the workers while the producer
    feeds them: a step of some worker, or one of the producer's actions. *)
Definition worker_or_fed (feed : list action) (a : action) : Prop :=
  a ∈ feed \/ exists i, a = Worker i.

End Pipeline.

(** ** Who holds the locks *)

Module Locks.
Import City Pool.

(** The thread is between [_lockGetUser.acquire()] and the release that
    follows it. *)
Definition holds_get (p : pc) : bool :=
  match p with
  | L281 | L283 | L286 _ => true
  | _ => false
  end.

(** The thread is between [_lockReadAddUser.acquire()] and the release
    that follows it. *)
Definition holds_add (p : pc) : bool :=
  match p with
  | L287 _ (L180 | L181 | L192) => true
  | _ => false
  end.

(** How many threads a predicate holds of. *)
Definition holders (h : pc -> bool) (threads : list pc) : nat :=
  length (List.filter h threads).

(** Every attribute the workers read has been assigned. *)
Definition complete (s : GitHubCity) : Prop :=
  is_Some (_names s) /\ is_Some (_fin s) /\ is_Some (_myusers s)
  /\ is_Some (_excluded s) /\ is_Some (_excludedLocations s)
  /\ is_Some (_dataUsers s).

(** No thread has died of an exception. *)
Definition alive (p : pc) : Prop :=
  match p with
  | Crashed _ => False
  | _ => True
  end.

(** Each lock is held exactly when one thread is inside its section. *)
Definition orderly (c : pool) : Prop :=
  complete (self c)
  /\ Forall alive (threads c)
  /\ (exists g, _lockGetUser (self c) = Some g
        /\ holders holds_get (threads c) = if g then 1%nat else 0%nat)
  /\ (exists a, _lockReadAddUser (self c) = Some a
        /\ holders holds_add (threads c) = if a then 1%nat else 0%nat).

End Locks.

(** ** A worker running alone *)

Module Drain.
Import City Pool.

(** Worker 0, scheduled alone for some number of statements, takes the
    pool from [c] to [c']. *)
Definition worker_reaches (getData : string -> Profile) (c c' : pool) : Prop :=
  exists m, run getData (burst 0 m) c = Some c'.

End Drain.

(** ** Sample inputs *)

Module Samples.

Import City Pool RateLimits Crawler.

(** A user of Granada with a number of followers. *)
Definition follower (login : string) (n : Z) : GitHubUser :=
  {| getName := login;
     data := {| location := "Granada"; contributions := 0; longestStreak := 0;
                currentStreak := 0; language := "Python"; followers := n;
                join := "2015-01-01"; organizations := 0;
                numberOfRepositories := 0; stars := 0 |} |}.

Definition three_users : list GitHubUser :=
  [follower "ana" 5; follower "bo" 9; follower "cy" 5].

(** An instance whose result list holds these three. *)
Definition ranked : GitHubCity := set_dataUsers three_users granada_city.

(** Two rate limits, of five and twenty seconds. *)
Definition two_limits : list limit :=
  [{| lim_code := 403; lim_reset := 105; lim_now := 100 |};
   {| lim_code := 403; lim_reset := 130; lim_now := 110 |}].

(** A search that reports 150 users and the same two logins on every
    page. *)
Definition two_pages (url : string) : SearchData :=
  {| total_count := 150; items := ["a"; "b"]%string |}.

(** A search that finds nobody. *)
Definition empty_search (url : string) : SearchData :=
  {| total_count := 0; items := [] |}.

(** The URLs of the search of Granada over the first half of 2008. *)
Definition first_half_2008 (page : Z) : string :=
  match _getURL granada_city page (Some "2008-01-01"%string)
          (Some "2008-06-30"%string) "asc" with
  | Ok url => url
  | Raise _ => ""%string
  end.

(** No login at all, and the one excluded location term. *)
Definition nobody : gset string := ∅.
Definition spain : gset string := list_to_set ["Spain"%string].

(** An instance built from a persisted configuration that excludes
    nothing. *)
Definition config_built : GitHubCity :=
  match __init__ (fun l => l) (Some "id"%string) (Some "secret"%string)
          (Some {| cfg_name := Some "Granada"%string;
                   cfg_intervals := [("2008-01-01", "2008-06-30")]%string;
                   cfg_last_date := "2008-06-30";
                   cfg_locations := ["Granada"]%string;
                   cfg_excludedUsers := [];
                   cfg_excludedLocations := [] |})
          None None None None false with
  | Ok self => self
  | Raise _ => blank
  end.

(** A persisted configuration. *)
Definition saved : Config :=
  {| cfg_name := Some "Granada"%string;
     cfg_intervals := [("2008-01-01", "2008-06-30")]%string;
     cfg_last_date := "2008-06-30";
     cfg_locations := ["Granada"]%string;
     cfg_excludedUsers := ["c"]%string;
     cfg_excludedLocations := ["Spain"]%string |}.

(** [spain_excluded] after reading it. *)
Definition resumed : GitHubCity :=
  match readConfig (fun l => l) spain_excluded saved with
  | Ok self => self
  | Raise _ => blank
  end.

End Samples.


(** * Properties *)

(** ** The partition computed by [_validInterval] *)

Module PartitionerProofs.

Import RangePartitioner.

Lemma tiles_app a m b l1 l2 :
  tiles a m l1 -> tiles m b l2 -> tiles a b (l1 ++ l2).
Proof.
  induction 1 as [a m | a k m l1 H IH]; intros H2; simpl.
  - by constructor.
  - constructor. by apply IH.
Qed.

Lemma tilesb_sound l : forall a b, tilesb a b l = true -> tiles a b l.
Proof.
  induction l as [| [s f] l IH]; intros a b; simpl; [done |].
  destruct l as [| p l].
  - intros [->%Z.eqb_eq ->%Z.eqb_eq]%andb_true_iff. constructor.
  - intros [->%Z.eqb_eq H]%andb_true_iff. constructor. by apply IH.
Qed.

Lemma middle_same s : middle s s = s.
Proof. unfold middle. rewrite Z.sub_diag, Z.div_0_l by lia. apply Z.add_0_r. Qed.

Lemma middle_between s f : 2 <= f - s -> s < middle s f < f.
Proof.
  intros H. unfold middle.
  assert (1 <= (f - s) / 2) by (apply Z.div_le_lower_bound; lia).
  assert ((f - s) / 2 < f - s) by (apply Z.div_lt; lia).
  lia.
Qed.

Section Probe.

Variable total_count : date -> date -> Z.

(** An interval under the cap is appended as it is, in one call. *)
Lemma validInterval_leaf fuel start finish acc :
  total_count start finish < CAP ->
  _validInterval total_count (S fuel) start finish acc
  = Some (acc ++ [(start, finish)]).
Proof.
  intros H. simpl.
  destruct (Z.leb_spec CAP (total_count start finish)); [lia | done].
Qed.

(** The bisection of [[s, f]], for any accumulated list, when every
    interval of at most one day inside it is under the cap. *)
Lemma validInterval_bisects n : forall s f,
  s <= f -> (Z.to_nat (f - s) <= n)%nat ->
  (forall a b, s <= a -> a <= b -> b <= f -> b - a <= 1 ->
               total_count a b < CAP) ->
  exists leaves,
    (forall fuel acc, (n < fuel)%nat ->
       _validInterval total_count fuel s f acc = Some (acc ++ leaves)) /\
    tiles s f leaves /\
    Forall (fun l => total_count l.1 l.2 < CAP) leaves /\
    (s < f -> Forall (fun l => l.1 < l.2) leaves).
Proof.
  induction n as [| n IH]; intros s f Hsf Hn Hday.
  - exists [(s, f)]. assert (f = s) as -> by lia.
    repeat split.
    + intros [| fuel] acc Hfuel; [lia |].
      apply validInterval_leaf, Hday; lia.
    + constructor.
    + repeat constructor. simpl. apply Hday; lia.
    + lia.
  - destruct (Z.leb_spec CAP (total_count s f)) as [Hcap | Hcap].
    + assert (2 <= f - s) as Hlen.
      { destruct (Z.le_gt_cases 2 (f - s)); [done |].
        specialize (Hday s f). lia. }
      pose proof (middle_between s f Hlen) as Hm.
      destruct (IH s (middle s f)) as (l1 & Hrun1 & Ht1 & Hc1 & Hp1);
        [lia | lia | intros; apply Hday; lia |].
      destruct (IH (middle s f) f) as (l2 & Hrun2 & Ht2 & Hc2 & Hp2);
        [lia | lia | intros; apply Hday; lia |].
      exists (l1 ++ l2). repeat split.
      * intros [| fuel] acc Hfuel; [lia |]. simpl.
        destruct (Z.leb_spec CAP (total_count s f)); [| lia].
        rewrite Hrun1 by lia. rewrite Hrun2 by lia.
        by rewrite app_assoc.
      * by eapply tiles_app.
      * apply Forall_app; split; done.
      * intros _. apply Forall_app; split; [apply Hp1 | apply Hp2]; lia.
    + exists [(s, f)]. repeat split.
      * intros [| fuel] acc Hfuel; [lia |]. by apply validInterval_leaf.
      * constructor.
      * by repeat constructor.
      * intros Hlt. by repeat constructor.
Qed.

(** C1 (amended): when the probe of [[start, finish]] reaches the cap and
    every interval of at most one day inside it is under the cap, the
    bisection returns, for every recursion depth above the number of days,
    a list of intervals that starts at [start], ends at [finish], in which
    each interval starts where the previous one ended, has positive
    length, and is under the cap. *)
Theorem validInterval_partitions start finish :
  start <= finish ->
  CAP <= total_count start finish ->
  (forall a b, start <= a -> a <= b -> b <= finish -> b - a <= 1 ->
               total_count a b < CAP) ->
  exists leaves,
    (forall fuel, (Z.to_nat (finish - start) < fuel)%nat ->
       calculateBestIntervals total_count fuel start finish = Some leaves) /\
    tiles start finish leaves /\
    Forall (fun l => l.1 < l.2 /\ total_count l.1 l.2 < CAP) leaves.
Proof.
  intros Hsf Hcap Hday.
  destruct (validInterval_bisects (Z.to_nat (finish - start)) start finish)
    as (leaves & Hrun & Ht & Hc & Hp); [done | lia | done |].
  exists leaves. repeat split.
  - intros fuel Hfuel. unfold calculateBestIntervals. by rewrite Hrun.
  - done.
  - assert (start < finish) as Hlt.
    { destruct (Z.eq_dec start finish) as [-> |]; [| lia].
      specialize (Hday finish finish). lia. }
    specialize (Hp Hlt). rewrite Forall_forall in *.
    intros l Hl. split; [by apply Hp | by apply Hc].
Qed.

(** C2: a range of length zero whose probe reaches the cap is never
    accepted: whatever the depth allowed, the call does not return. *)
Theorem validInterval_degenerate_never_returns fuel day acc :
  CAP <= total_count day day ->
  _validInterval total_count fuel day day acc = None.
Proof.
  intros Hcap. revert acc. induction fuel as [| fuel IH]; intros acc; simpl.
  - done.
  - destruct (Z.leb_spec CAP (total_count day day)); [| lia].
    by rewrite middle_same, IH.
Qed.

End Probe.

(** The probe [uniform] on eight days: four leaves of two days. *)
Example uniform_eight_days :
  calculateBestIntervals uniform 9 0 8 = Some [(0, 2); (2, 4); (4, 6); (6, 8)].
Proof. reflexivity. Qed.

Example uniform_eight_days_tiles :
  tiles 0 8 [(0, 2); (2, 4); (4, 6); (6, 8)].
Proof. apply tilesb_sound. reflexivity. Qed.

Lemma validInterval_partitions_witness :
  0 <= 8 /\ CAP <= uniform 0 8 /\
  exists leaves,
    (forall fuel, (Z.to_nat (8 - 0) < fuel)%nat ->
       calculateBestIntervals uniform fuel 0 8 = Some leaves) /\
    tiles 0 8 leaves /\
    Forall (fun l => l.1 < l.2 /\ uniform l.1 l.2 < CAP) leaves.
Proof.
  split; [lia |]. split; [unfold uniform, CAP; lia |].
  apply (validInterval_partitions uniform 0 8).
  - lia.
  - unfold uniform, CAP; lia.
  - intros a b _ _ _ H. unfold uniform, CAP. lia.
Defined.

(** C1, as stated, fails: the one-day interval [[0, 1]] reaches the cap
    under [crowded], and no depth lets the bisection return. *)
Lemma validInterval_crowded_day_diverges :
  CAP <= crowded 0 1 /\
  forall fuel acc, _validInterval crowded fuel 0 1 acc = None.
Proof.
  split; [unfold crowded, CAP; simpl; lia |].
  induction fuel as [| fuel IH]; intros acc; [done |].
  change (_validInterval crowded (S fuel) 0 1 acc)
    with (match _validInterval crowded fuel 0 0 acc with
          | Some acc' => _validInterval crowded fuel 0 1 acc'
          | None => None
          end).
  destruct (_validInterval crowded fuel 0 0 acc); [apply IH | done].
Qed.

Lemma validInterval_degenerate_witness :
  CAP <= saturated 0 0 /\ _validInterval saturated 5 0 0 [] = None.
Proof.
  split; [unfold saturated, CAP; lia |].
  apply (validInterval_degenerate_never_returns saturated 5 0 []).
  unfold saturated, CAP; lia.
Defined.

End PartitionerProofs.

(** ** The retry loop of [_readAPI] *)

Module ClientProofs.

Import RateLimitedClient.

Section Platform.

Context {data : Type} (loads : string -> result data) (naps : Z -> bool).

Lemma sleep_accepts secs :
  0 <= secs <= SLEEP_MAX -> naps secs = true ->
  sleep naps secs = Ok [Sleep secs].
Proof using Type.
  intros Hsecs Hnaps. unfold sleep. rewrite Hnaps.
  destruct (Z.ltb_spec secs (- SLEEP_MAX)); [unfold SLEEP_MAX in *; lia |].
  destruct (Z.ltb_spec SLEEP_MAX secs); [lia |].
  destruct (Z.ltb_spec secs 0); [lia | done].
Qed.

Lemma sleep_events secs evs : sleep naps secs = Ok evs -> evs = [Sleep secs].
Proof using Type.
  unfold sleep. destruct ((secs <? - SLEEP_MAX) || (SLEEP_MAX <? secs)); [done |].
  destruct (secs <? 0); [done |]. destruct (naps secs); [| done].
  by intros [= <-].
Qed.

(** Every request of a call carries the URL the call was given. *)
Lemma attempts_same_url url script : forall response,
  Forall (eq url) (requested (attempts loads naps url script response).1).
Proof using Type.
  induction script as [| [r now_sec] script IH]; intros response; simpl.
  - constructor.
  - destruct r as [code body | code [reset |] |]; simpl.
    + destruct (code =? 200); simpl; [by repeat constructor |].
      specialize (IH (Some body)).
      destruct (attempts loads naps url script (Some body)) as [evs e]; simpl in *.
      by constructor.
    + destruct (sleep naps (reset - now_sec)) as [slept |] eqn:Hsleep; simpl;
        [| by repeat constructor].
      apply sleep_events in Hsleep as ->.
      destruct (code =? 200); simpl; [by repeat constructor |].
      specialize (IH response).
      destruct (attempts loads naps url script response) as [evs e]; simpl in *.
      by constructor.
    + by repeat constructor.
    + by repeat constructor.
Qed.

(** A call that is still inside its loop starts the next round with a
    request of the same URL. *)
Lemma attempts_starts_with_request url script response :
  script <> [] ->
  exists evs, (attempts loads naps url script response).1 = Request url :: evs.
Proof using Type.
  destruct script as [| [r now_sec] script]; [done | intros _; simpl].
  destruct r as [code body | code [reset |] |]; simpl; eauto.
  - destruct (code =? 200); simpl; eauto.
    destruct (attempts loads naps url script (Some body)); simpl; eauto.
  - destruct (sleep naps (reset - now_sec)) as [slept |]; simpl; eauto.
    destruct (code =? 200); simpl; eauto.
    destruct (attempts loads naps url script response); simpl; eauto.
Qed.

(** C4 (amended): on a non-200 error reply whose reset time is not in the
    past and whose wait [time.sleep] takes (at most [SLEEP_MAX] seconds,
    and not refused by the system), [_readAPI] sleeps exactly
    [reset - now] seconds, which is then [max 0 (reset - now)], and goes on
    as a call with the same URL on the rest of the replies: every later
    request carries that URL. *)
Theorem readAPI_waits_then_retries url code reset now_sec rest :
  code <> 200 ->
  now_sec <= reset ->
  reset - now_sec <= SLEEP_MAX ->
  naps (reset - now_sec) = true ->
  (_readAPI loads naps url ((HTTPError code (Some reset), now_sec) :: rest)).1
  = Request url :: Sleep (Z.max 0 (reset - now_sec))
      :: (_readAPI loads naps url rest).1
  /\ (_readAPI loads naps url ((HTTPError code (Some reset), now_sec) :: rest)).2
     = (_readAPI loads naps url rest).2
  /\ Forall (eq url) (requested (_readAPI loads naps url rest).1)
  /\ (rest <> [] ->
      exists evs, (_readAPI loads naps url rest).1 = Request url :: evs).
Proof using Type.
  intros Hcode Hnow Hmax Hnaps. unfold _readAPI. cbn [attempts].
  rewrite sleep_accepts by (done || lia).
  destruct (Z.eqb_spec code 200) as [-> | _]; [done |].
  rewrite Z.max_r by lia.
  destruct (attempts loads naps url rest None) as [evs e] eqn:Hrest. simpl.
  repeat split.
  - change evs with (evs, e).1. rewrite <- Hrest. apply attempts_same_url.
  - intros Hne. change evs with (evs, e).1. rewrite <- Hrest.
    by apply attempts_starts_with_request.
Qed.

End Platform.

Lemma readAPI_waits_then_retries_witness :
  403 <> 200 /\ 100 <= 105 /\ 105 - 100 <= SLEEP_MAX /\
  (_readAPI braced sound_sleeper "u"
     [(HTTPError 403 (Some 105), 100); (Response 200 "{}", 105)]).1
  = [Request "u"; Sleep 5; Request "u"].
Proof.
  split; [lia |]. split; [lia |]. split; [unfold SLEEP_MAX; lia |].
  apply (readAPI_waits_then_retries braced sound_sleeper "u" 403 105 100
           [(Response 200 "{}", 105)]);
    first [reflexivity | unfold SLEEP_MAX; lia].
Defined.

(** C4, as stated, fails: with a reset time five seconds in the past the
    call does not sleep zero seconds and retry, it ends on the
    [ValueError] of [time.sleep] after its first request.  Nor does it
    sleep any wait it is given: a reset time three thousand years ahead
    ends it on the [OverflowError] of [time.sleep], after its first
    request as well.  Neither depends on what the system would do with
    the sleep. *)
Lemma readAPI_past_reset_raises :
  _readAPI braced sound_sleeper "u"
    [(HTTPError 403 (Some 95), 100); (Response 200 "{}", 100)]
  = ([Request "u"], Raises ValueError)
  /\ Z.max 0 (95 - 100) = 0
  /\ _readAPI braced sound_sleeper "u"
       [(HTTPError 403 (Some 100000000000), 100); (Response 200 "{}", 100)]
     = ([Request "u"], Raises OverflowError).
Proof. repeat split. Qed.

End ClientProofs.

(** ** Construction, [_addUser] and [getSortUsers] on one thread *)

(** Reading and writing attributes, and nothing else. *)
Ltac fields :=
  cbn [City._githubID City._githubSecret City._city City._locations
       City._urlLocations City._intervals City._lastDay City._excluded
       City._excludedLocations City._names City._myusers City._dataUsers
       City._fin City._lockGetUser City._lockReadAddUser
       City.set_githubID City.set_githubSecret City.set_city
       City.set_locations City.set_urlLocations City.set_intervals
       City.set_lastDay City.set_excluded City.set_excludedLocations
       City.set_names City.set_myusers City.set_dataUsers City.set_fin
       City.set_lockGetUser City.set_lockReadAddUser
       City.blank City.attr mbind result_bind City.of_result].

(** The same in the hypotheses too. *)
Ltac fields_all :=
  cbn [City._githubID City._githubSecret City._city City._locations
       City._urlLocations City._intervals City._lastDay City._excluded
       City._excludedLocations City._names City._myusers City._dataUsers
       City._fin City._lockGetUser City._lockReadAddUser
       City.set_githubID City.set_githubSecret City.set_city
       City.set_locations City.set_urlLocations City.set_intervals
       City.set_lastDay City.set_excluded City.set_excludedLocations
       City.set_names City.set_myusers City.set_dataUsers City.set_fin
       City.set_lockGetUser City.set_lockReadAddUser
       City.blank City.attr mbind result_bind City.of_result] in *.

Ltac split_reads :=
  repeat (fields_all;
          match goal with
          | H : context [City.attr _ ?x] |- _ => destruct x eqn:?; try discriminate
          | H : context [decide ?P] |- _ => destruct (decide P)
          | H : context [match ?x with _ => _ end] |- _ =>
              destruct x eqn:?; try discriminate
          end).

Module CityProofs.

Import City.

Lemma any_in_true (excludedLocations : gset string) (s userLoc : string) :
  s ∈ excludedLocations -> contains s userLoc = true ->
  any_in excludedLocations userLoc = true.
Proof.
  intros Hs Hc. unfold any_in. apply existsb_exists. exists s. split; [| done].
  by apply list_elem_of_In, elem_of_elements.
Qed.

Lemma any_in_false (excludedLocations : gset string) (s userLoc : string) :
  any_in excludedLocations userLoc = false -> s ∈ excludedLocations ->
  contains s userLoc = false.
Proof.
  intros Hany Hs. destruct (contains s userLoc) eqn:Hc; [| done].
  by rewrite (any_in_true _ _ _ Hs Hc) in Hany.
Qed.

Section Methods.

Variable quote : string -> string.
Variable getData : string -> Profile.

(** A call that has not returned takes its next statement. *)
Lemma run_addUser_next steps new_user pc self fetched :
  pc <> L_end ->
  run_addUser getData (S steps) new_user pc self fetched
  = match step_addUser getData new_user pc self with
    | Next (pc', self', fs) =>
        run_addUser getData steps new_user pc' self' (fetched ++ fs)
    | Blocks => (Waits, self, fetched)
    | Throws e => (Raises e, self, fetched)
    end.
Proof using Type. by destruct pc. Qed.

Ltac statement :=
  rewrite run_addUser_next by discriminate; cbn [step_addUser]; fields.



(** C9 (amended): with a persisted configuration the constructor raises
    [AttributeError] as soon as one of the two exclusion lists has an
    element; with both lists empty it returns an instance on which
    [_excluded] and [_excludedLocations] were never assigned.  On that
    instance the first call of [_addUser] raises [AttributeError], for
    every login, with the lock of line 179 still held; every call after it
    waits for that lock at line 179 and neither raises nor returns. *)
Theorem init_with_config_exclusions
    (id secret : string) (name city : option string)
    (intervals : list (string * string)) (last_date : string)
    (locs : list string)
    (locations excludedUsers excludedLocations : option (list string))
    (debug : bool) (e : string) (es others : list string) :
  __init__ quote (Some id) (Some secret)
    (Some {| cfg_name := name; cfg_intervals := intervals;
             cfg_last_date := last_date; cfg_locations := locs;
             cfg_excludedUsers := e :: es;
             cfg_excludedLocations := others |})
    city locations excludedUsers excludedLocations debug
  = Raise (AttributeError "_excluded")
  /\ __init__ quote (Some id) (Some secret)
       (Some {| cfg_name := name; cfg_intervals := intervals;
                cfg_last_date := last_date; cfg_locations := locs;
                cfg_excludedUsers := [];
                cfg_excludedLocations := e :: es |})
       city locations excludedUsers excludedLocations debug
     = Raise (AttributeError "_excludedLocations")
  /\ exists self,
       __init__ quote (Some id) (Some secret)
         (Some {| cfg_name := name; cfg_intervals := intervals;
                  cfg_last_date := last_date; cfg_locations := locs;
                  cfg_excludedUsers := []; cfg_excludedLocations := [] |})
         city locations excludedUsers excludedLocations debug
       = Ok self
       /\ _excluded self = None
       /\ _excludedLocations self = None
       /\ forall new_user,
            (_addUser getData self new_user).1.1
            = Raises (AttributeError "_excluded")
            /\ _lockReadAddUser (_addUser getData self new_user).1.2
               = Some true
            /\ forall later,
                 _addUser getData (_addUser getData self new_user).1.2 later
                 = (Waits, (_addUser getData self new_user).1.2, []).
Proof using Type.
  split; [reflexivity |]. split; [reflexivity |].
  unfold __init__, readConfig, _addLocationsToURL. fields.
  cbn [add_each cfg_excludedUsers cfg_excludedLocations cfg_locations
       cfg_name cfg_intervals cfg_last_date].
  fields.
  eexists. split; [reflexivity |]. split; [reflexivity |].
  split; [reflexivity |].
  intros new_user. unfold _addUser at 1 2 4 5. statement. statement.
  destruct (decide (new_user ∈ (∅ : gset string))) as [Hin | _].
  - by apply not_elem_of_empty in Hin.
  - split; [reflexivity |]. split; [reflexivity |].
    intros later. cbn [fst snd]. unfold _addUser. by statement.
Qed.

(** One thread, calling [_addUser] twice in a row: when the detail record
    of a login that is neither seen nor excluded has a location containing
    an excluded substring, the first call fetches the record, appends
    nothing to the result list and leaves the login in the seen-set; the
    second call for the same login fetches nothing and changes nothing. *)
Theorem addUser_excluded_location_discarded
    (self : GitHubCity) (new_user s : string)
    (seen excluded excludedLocations : gset string)
    (users : list GitHubUser) :
  _lockReadAddUser self = Some false ->
  _myusers self = Some seen ->
  _excluded self = Some excluded ->
  _excludedLocations self = Some excludedLocations ->
  _dataUsers self = Some users ->
  new_user ∉ seen ->
  new_user ∉ excluded ->
  s ∈ excludedLocations ->
  contains s (location (getData new_user)) = true ->
  exists self',
    _addUser getData self new_user = (Returns, self', [new_user])
    /\ _dataUsers self' = Some users
    /\ _myusers self' = Some ({[ new_user ]} ∪ seen)
    /\ _addUser getData self' new_user = (Returns, self', []).
Proof using Type.
  clear quote. intros Hlock Hseen Hex Hexl Hu Hnew Hnot Hs Hc.
  pose proof (any_in_true _ _ _ Hs Hc) as Hany.
  eexists. split; [| split; [| split]].
  - unfold _addUser. statement. rewrite Hlock. fields.
    statement. rewrite Hseen. fields.
    destruct (decide (new_user ∈ seen)); [done |]. fields.
    rewrite Hex. fields.
    destruct (decide (new_user ∈ excluded)); [done |]. fields.
    statement. statement. rewrite Hseen. fields. statement.
    statement. rewrite Hexl. fields.
    unfold getLocation. cbn [data]. rewrite Hany. reflexivity.
  - fields. exact Hu.
  - reflexivity.
  - unfold _addUser. statement. statement.
    destruct (decide (new_user ∈ {[new_user]} ∪ seen)) as [_ | Hout].
    + fields. statement. reflexivity.
    + exfalso. apply Hout. set_solver.
Qed.

End Methods.

Lemma addUser_excluded_location_witness :
  exists self',
    _addUser Pool.granada Pool.spain_excluded "a"
    = (Returns, self', ["a"%string])
    /\ _dataUsers self' = Some []
    /\ _myusers self' = Some ({[ "a"%string ]} ∪ ∅)
    /\ _addUser Pool.granada self' "a" = (Returns, self', []).
Proof.
  apply (addUser_excluded_location_discarded Pool.granada Pool.spain_excluded
           "a" "Spain" ∅ ∅ (list_to_set ["Spain"%string]) []).
  - reflexivity.
  - reflexivity.
  - reflexivity.
  - reflexivity.
  - reflexivity.
  - set_solver.
  - set_solver.
  - set_solver.
  - reflexivity.
Defined.


(** C9, as stated, fails: on an instance built from a configuration
    without exclusions the first call of [_addUser] raises
    [AttributeError], but the call after it does not: it waits at line 179
    for the lock the first call never released. *)
Lemma addUser_second_call_waits :
  (_addUser Pool.granada Samples.config_built "a").1.1
  = Raises (AttributeError "_excluded")
  /\ (_addUser Pool.granada
        (_addUser Pool.granada Samples.config_built "a").1.2 "b").1.1
     = Waits.
Proof. split; vm_compute; reflexivity. Qed.

(** C10: called with ["repositories"], [getSortUsers] returns [None] and
    leaves the instance, hence the stored list, as it was. *)
Theorem getSortUsers_repositories_is_None (self : GitHubCity) :
  getSortUsers self "repositories" = (Ok None, self).
Proof. reflexivity. Qed.

(** The spelling the dispatch does know. *)
Lemma getSortUsers_respositories_sorts (self : GitHubCity) :
  getSortUsers self "respositories"
  = sort_by Z.ltb getNumberOfRepositories self.
Proof. reflexivity. Qed.

End CityProofs.

(** ** The workers under a schedule *)

Module PoolProofs.

Import City Pool.

Section Threads.

Variable getData : string -> Profile.

(** Line 181 releases the lock and leaves the seen-set as the test of
    line 180 found it: the login is added by the next statement, which no
    lock protects. *)
Lemma release_precedes_add new_user self at' self' fs :
  step_addUser getData new_user L181 self = Next (at', self', fs) ->
  at' = L182
  /\ _lockReadAddUser self' = Some false
  /\ _myusers self' = _myusers self.
Proof.
  cbn [step_addUser]. fields.
  destruct (_lockReadAddUser self); fields; [| done].
  intros [= <- <- <-]. done.
Qed.

(** On an empty queue line 281 goes to the [except] branch, and line 283
    returns: [_fin] is not read by either. *)
Lemma empty_queue_returns self held :
  _names self = Some [] ->
  _lockGetUser self = Some held ->
  step_processUsers getData L281 self = Next (L283, self, [])
  /\ step_processUsers getData L283 self
     = Next (Returned, set_lockGetUser false self, []).
Proof.
  intros Hnames Hlock. cbn [step_processUsers]. fields.
  rewrite Hnames, Hlock. done.
Qed.

End Threads.

Section Exclusions.

Variable getData : string -> Profile.
Variable excluded excludedLocations : gset string.

Lemma step_addUser_ok new_user at_ s at' s' fs :
  thread_ok excluded (L287 new_user at_) -> self_ok excluded excludedLocations s ->
  step_addUser getData new_user at_ s = Next (at', s', fs) ->
  thread_ok excluded (L287 new_user at') /\ self_ok excluded excludedLocations s'
  /\ Forall (fun login => login ∉ excluded) fs.
Proof using Type.
  intros Hp (Hex & Hexl & Hrec) Hstep. unfold self_ok.
  destruct at_; cbn [step_addUser] in Hstep; fields_all;
    rewrite ?Hex, ?Hexl in Hstep; split_reads.
  all: try discriminate.
  all: injection Hstep as <- <- <-.
  all: fields_all; cbn [thread_ok default] in *.
  all: try (repeat split; first [done | by repeat constructor]).
  - rewrite Heqo. by repeat split.
  - repeat split; try done. apply Forall_app. split; [done |].
    by repeat constructor.
  - rewrite Heqo. by repeat split.
Qed.

Lemma step_processUsers_ok p s p' s' fs :
  thread_ok excluded p -> self_ok excluded excludedLocations s ->
  step_processUsers getData p s = Next (p', s', fs) ->
  thread_ok excluded p' /\ self_ok excluded excludedLocations s' /\ Forall (fun login => login ∉ excluded) fs.
Proof using Type.
  intros Hp Hs Hstep.
  destruct p as [| | | | | new_user | new_user at_ | |];
    try (destruct Hs as (Hex & Hexl & Hrec); unfold self_ok;
         cbn [step_processUsers] in Hstep; split_reads; try discriminate;
         injection Hstep as <- <- <-; fields_all; cbn [thread_ok];
         by repeat split).
  destruct at_; cbn [step_processUsers] in Hstep.
  8: { injection Hstep as <- <- <-. split; [exact I | split; [done | constructor]]. }
  all: match type of Hstep with
       | match ?x with _ => _ end = _ =>
           destruct x as [[[at' s''] fs'] | | e] eqn:Hadd
       end; try discriminate.
  all: injection Hstep as <- <- <-.
  all: by eapply step_addUser_ok.
Qed.

(** Every action of a schedule keeps the pool in order. *)
Lemma exec_ok a c c' : pool_ok excluded excludedLocations c -> exec getData a c = Some c' -> pool_ok excluded excludedLocations c'.
Proof using Type.
  intros (Hs & Hts & Hfs) Hexec. destruct a as [i | login |]; cbn [exec] in Hexec.
  - destruct (threads c !! i) as [p |] eqn:Hp; [| done].
    assert (thread_ok excluded p) as Hpok by (by eapply Forall_lookup_1).
    destruct (step_processUsers getData p (self c))
      as [[[p' s'] fs] | | e] eqn:Hstep; [| done |].
    + injection Hexec as <-.
      destruct (step_processUsers_ok _ _ _ _ _ Hpok Hs Hstep) as (? & ? & ?).
      split; [done |]. split; cbn [threads fetched].
      * by apply Forall_insert.
      * by apply Forall_app.
    + injection Hexec as <-. split; [done |]. split; [| done].
      by apply Forall_insert.
  - destruct (_names (self c)) eqn:Hn; [| done].
    injection Hexec as <-. split; [| done].
    destruct Hs as (? & ? & ?). by repeat split.
  - injection Hexec as <-. split; [| done].
    destruct Hs as (? & ? & ?). by repeat split.
Qed.

Lemma run_ok schedule : forall c c',
  pool_ok excluded excludedLocations c -> run getData schedule c = Some c' -> pool_ok excluded excludedLocations c'.
Proof using Type.
  induction schedule as [| a schedule IH]; intros c c' Hc Hrun; cbn [run] in Hrun.
  - by injection Hrun as <-.
  - destruct (exec getData a c) as [c1 |] eqn:Hexec; [| done].
    eapply IH; [| done]. by eapply exec_ok.
Qed.

Lemma launch_ok numThreads obj :
  _excluded obj = Some excluded ->
  _excludedLocations obj = Some excludedLocations ->
  _dataUsers obj = Some [] ->
  pool_ok excluded excludedLocations (launch numThreads obj).
Proof using Type.
  intros Hex Hexl Hu. split; [| split]; cbn [launch self threads fetched].
  - split; [done |]. split; [done |]. rewrite Hu. constructor.
  - apply Forall_replicate. exact I. 
  - constructor.
Qed.

(** Whatever the number of workers and the schedule: no detail record is
    fetched for an excluded login, the result list holds no record of an
    excluded login, and no record whose location contains an excluded
    substring. *)
Theorem exclusions_hold_under_every_schedule numThreads obj schedule c :
  _excluded obj = Some excluded ->
  _excludedLocations obj = Some excludedLocations ->
  _dataUsers obj = Some [] ->
  run getData schedule (launch numThreads obj) = Some c ->
  (forall login, login ∈ excluded ->
     (login ∉ fetched c) /\ (login ∉ result_names c))
  /\ (forall r s, r ∈ default [] (_dataUsers (self c)) ->
       s ∈ excludedLocations -> contains s (getLocation r) = false).
Proof using Type.
  intros Hex Hexl Hu Hrun.
  destruct (run_ok schedule _ _ (launch_ok numThreads obj Hex Hexl Hu) Hrun)
    as ((_ & _ & Hrec) & _ & Hfs).
  pose proof (proj1 (Forall_forall _ _) Hrec) as Hrec'.
  pose proof (proj1 (Forall_forall _ _) Hfs) as Hfs'.
  split.
  - intros login Hin. split.
    + intros Hf. by apply (Hfs' login).
    + unfold result_names. intros (r & -> & Hr)%list_elem_of_fmap.
      by destruct (Hrec' r Hr).
  - intros r s Hr Hs. destruct (Hrec' r Hr) as [_ Hany].
    by eapply CityProofs.any_in_false.
Qed.

End Exclusions.

Section OneWorker.

Variable getData : string -> Profile.

Lemma step_addUser_tidy new_user at_ s at' s' fs :
  tidy s (L287 new_user at_) ->
  step_addUser getData new_user at_ s = Next (at', s', fs) ->
  tidy s' (L287 new_user at').
Proof using Type.
  intros (seen & users & Hseen & Hu & Hnd & Hsub & Hat) Hstep. unfold tidy.
  destruct at_; cbn [step_addUser] in Hstep; fields_all;
    rewrite ?Hseen, ?Hu in Hstep; split_reads.
  all: try discriminate.
  all: injection Hstep as <- <- <-.
  all: fields_all; cbn [at_ok getName] in *.
  all: try (exists seen, users; repeat split; first [done | by destruct Hat]).
  - exists ({[new_user]} ∪ seen), users. repeat split; try done.
    + intros n Hn. apply elem_of_union_r. by apply Hsub.
    + apply elem_of_union_l. by apply elem_of_singleton.
    + intros Hn. by apply Hat, Hsub.
  - destruct Hat as [Hin Hout].
    exists seen, (users ++ [myNewUser]). rewrite fmap_app. repeat split; try done.
    + apply NoDup_app. split; [done |]. split.
      * intros n Hn [-> | []%elem_of_nil]%elem_of_cons. done.
      * apply NoDup_singleton.
    + intros n [Hn | [-> | []%elem_of_nil]%elem_of_cons]%elem_of_app;
        [by apply Hsub | done].
Qed.

Lemma step_processUsers_tidy p s p' s' fs :
  tidy s p ->
  step_processUsers getData p s = Next (p', s', fs) ->
  tidy s' p'.
Proof using Type.
  intros Ht Hstep.
  destruct p as [| | | | | new_user | new_user at_ | |];
    try (destruct Ht as (seen & users & Hseen & Hu & Hnd & Hsub & Hat);
         cbn [step_processUsers] in Hstep; split_reads; try discriminate;
         injection Hstep as <- <- <-; exists seen, users; fields_all;
         cbn [at_ok]; by repeat split).
  destruct at_; cbn [step_processUsers] in Hstep.
  8: { injection Hstep as <- <- <-.
       destruct Ht as (seen & users & Hseen & Hu & Hnd & Hsub & Hat).
       exists seen, users. by repeat split. }
  all: match type of Hstep with
       | match ?x with _ => _ end = _ =>
           destruct x as [[[at' s''] fs'] | | e] eqn:Hadd
       end; try discriminate.
  all: injection Hstep as <- <- <-.
  all: by eapply step_addUser_tidy.
Qed.

(** With one worker, a pool stays tidy under every action. *)
Lemma exec_tidy a c c' :
  pool_tidy c -> exec getData a c = Some c' -> pool_tidy c'.
Proof using Type.
  intros (p & Hts & Ht) Hexec. destruct a as [i | login |]; cbn [exec] in Hexec.
  - rewrite Hts in Hexec. destruct i as [| i]; [| done]. cbn in Hexec.
    destruct (step_processUsers getData p (self c))
      as [[[p' s'] fs] | | e] eqn:Hstep; [| done |].
    + injection Hexec as <-. exists p'. split; [done |].
      by eapply step_processUsers_tidy.
    + injection Hexec as <-. exists (Crashed e). split; [done |].
      destruct Ht as (seen & users & Hseen & Hu & Hnd & Hsub & _).
      exists seen, users. by repeat split.
  - destruct (_names (self c)) eqn:Hn; [| done].
    injection Hexec as <-. exists p. split; [done |].
    destruct Ht as (seen & users & Hseen & Hu & Hnd & Hsub & Hat).
    exists seen, users. by repeat split.
  - injection Hexec as <-. exists p. split; [done |].
    destruct Ht as (seen & users & Hseen & Hu & Hnd & Hsub & Hat).
    exists seen, users. by repeat split.
Qed.

Lemma run_tidy schedule : forall c c',
  pool_tidy c -> run getData schedule c = Some c' -> pool_tidy c'.
Proof using Type.
  induction schedule as [| a schedule IH]; intros c c' Hc Hrun; cbn [run] in Hrun.
  - by injection Hrun as <-.
  - destruct (exec getData a c) as [c1 |] eqn:Hexec; [| done].
    eapply IH; [| done]. by eapply exec_tidy.
Qed.

(** With a single worker the result list holds at most one record per
    login, whatever the producer puts on the queue and whenever. *)
Theorem single_worker_records_once obj schedule c :
  _myusers obj = Some ∅ ->
  _dataUsers obj = Some [] ->
  run getData schedule (launch 1 obj) = Some c ->
  NoDup (result_names c).
Proof using Type.
  intros Hseen Hu Hrun.
  assert (pool_tidy (launch 1 obj)) as Hstart.
  { exists L275. split; [done |]. exists ∅, []. cbn [launch self].
    split; [done |]. split; [done |]. split; [constructor |].
    split; [| exact I]. by intros n ?%elem_of_nil. }
  destruct (run_tidy schedule _ _ Hstart Hrun)
    as (p & _ & seen & users & _ & Hres & Hnd & _).
  unfold result_names. by rewrite Hres.
Qed.

End OneWorker.

Lemma exclusions_hold_witness :
  exists c,
    run granada both_enrich (launch 2 spain_excluded) = Some c
    /\ (forall login, login ∈ (∅ : gset string) ->
         (login ∉ fetched c) /\ (login ∉ result_names c))
    /\ (forall r s, r ∈ default [] (_dataUsers (self c)) ->
         s ∈ (list_to_set ["Spain"%string] : gset string) ->
         contains s (getLocation r) = false).
Proof.
  eexists. split; [vm_compute; reflexivity |].
  apply (exclusions_hold_under_every_schedule granada ∅
           (list_to_set ["Spain"%string]) 2 spain_excluded both_enrich).
  - reflexivity.
  - reflexivity.
  - reflexivity.
  - vm_compute. reflexivity.
Defined.

Lemma single_worker_witness :
  exists c,
    run granada one_by_one (launch 1 granada_city) = Some c
    /\ fetched c = ["a"%string]
    /\ NoDup (result_names c).
Proof.
  eexists. split; [vm_compute; reflexivity |]. split; [reflexivity |].
  apply (single_worker_records_once granada granada_city one_by_one).
  - reflexivity.
  - reflexivity.
  - vm_compute. reflexivity.
Defined.

(** C3: the test of line 180 and the addition of line 182 are not in one
    critical section.  Under the schedule [both_pass_the_test] two workers
    holding the same login have both passed the test and both stand at
    line 182, with the lock free and the seen-set still empty. *)
Theorem addUser_test_and_add_not_atomic :
  threads <$> run granada both_pass_the_test (launch 2 granada_city)
  = Some [L287 "a" L182; L287 "a" L182]
  /\ (fun c => _lockReadAddUser (self c))
       <$> run granada both_pass_the_test (launch 2 granada_city)
     = Some (Some false)
  /\ seen_names <$> run granada both_pass_the_test (launch 2 granada_city)
     = Some [].
Proof. split; [| split]; vm_compute; reflexivity. Qed.

(** C6: continued until both calls return, the same schedule fetches the
    detail record of the login twice and leaves two records for it in the
    result list. *)
Theorem duplicate_login_recorded_twice :
  fetched <$> run granada both_enrich (launch 2 granada_city)
  = Some ["a"; "a"]%string
  /\ result_names <$> run granada both_enrich (launch 2 granada_city)
     = Some ["a"; "a"]%string
  /\ seen_names <$> run granada both_enrich (launch 2 granada_city)
     = Some ["a"%string].
Proof. split; [| split]; vm_compute; reflexivity. Qed.

(** C8: a login whose record is discarded for its location is enriched
    again all the same when two workers hold it at once.  On an instance
    that excludes the term ["Spain"], with every login living in Granada,
    Spain, the schedule [both_enrich] lets both copies of the login pass
    the test of line 180 before either is added at line 182: its detail
    record is fetched twice.  No record is appended, and the login is in
    the seen-set. *)
Theorem excluded_location_login_enriched_twice :
  fetched <$> run granada both_enrich (launch 2 spain_excluded)
  = Some ["a"; "a"]%string
  /\ result_names <$> run granada both_enrich (launch 2 spain_excluded)
     = Some []
  /\ seen_names <$> run granada both_enrich (launch 2 spain_excluded)
     = Some ["a"%string].
Proof. split; [| split]; vm_compute; reflexivity. Qed.

(** C5: a worker that finds the queue empty returns although [_fin] is
    still false; a login put on the queue afterwards stays there, since the
    worker takes no further step. *)
Theorem worker_returns_before_finish :
  threads <$> run granada drained_once (launch 1 granada_city)
  = Some [Returned]
  /\ (fun c => _fin (self c))
       <$> run granada drained_once (launch 1 granada_city)
     = Some (Some false)
  /\ (fun c => _names (self c))
       <$> run granada (drained_once ++ [Put "b"%string])
             (launch 1 granada_city)
     = Some (Some ["b"%string])
  /\ run granada (drained_once ++ [Put "b"%string; Worker 0])
       (launch 1 granada_city) = None.
Proof. repeat split; vm_compute; reflexivity. Qed.

End PoolProofs.

(** ** More on [_validInterval] *)

Module PartitionerMore.

Import RangePartitioner PartitionerProofs.

Section Probe.

Variable total_count : date -> date -> Z.

(** Whatever the probe answers: when the call returns, it has kept the
    intervals stored before, in their order, and has added intervals that
    start at [start], end at [finish], follow each other without a gap, and
    are each under the cap. *)
Theorem validInterval_returns_a_partition fuel : forall (start finish : Z) acc r,
  _validInterval total_count fuel start finish acc = Some r ->
  exists leaves,
    r = acc ++ leaves
    /\ tiles start finish leaves
    /\ Forall (fun l => total_count l.1 l.2 < CAP) leaves.
Proof using Type.
  induction fuel as [| fuel IH]; intros start finish acc r Hrun; [done |].
  cbn [_validInterval] in Hrun.
  destruct (Z.leb_spec CAP (total_count start finish)) as [Hcap | Hcap].
  - destruct (_validInterval total_count fuel start (middle start finish) acc)
      as [r1 |] eqn:Hleft; [| done].
    destruct (IH _ _ _ _ Hleft) as (l1 & -> & Ht1 & Hc1).
    destruct (IH _ _ _ _ Hrun) as (l2 & -> & Ht2 & Hc2).
    exists (l1 ++ l2). split; [by rewrite app_assoc |].
    split; [by eapply tiles_app | by apply Forall_app].
  - injection Hrun as <-. exists [(start, finish)].
    split; [done |]. split; [constructor | by repeat constructor].
Qed.



End Probe.

Lemma validInterval_returns_witness :
  exists leaves,
    [(0, 2); (2, 4); (4, 6); (6, 8)] = [] ++ leaves
    /\ tiles 0 8 leaves
    /\ Forall (fun l => uniform l.1 l.2 < CAP) leaves.
Proof.
  apply (validInterval_returns_a_partition uniform 9 0 8 []).
  reflexivity.
Defined.


End PartitionerMore.

(** ** More on [_readAPI] *)

Module ClientMore.
Import RateLimitedClient RateLimits.

Lemma slept_app evs1 evs2 : slept (evs1 ++ evs2) = slept evs1 + slept evs2.
Proof.
  induction evs1 as [| [url | secs] evs1 IH]; simpl; lia.
Qed.

Lemma waiting_requested url ws :
  requested (waiting url ws) = replicate (length ws) url.
Proof. induction ws as [| w ws IH]; simpl; [done | by rewrite IH]. Qed.

Lemma waiting_slept url ws :
  slept (waiting url ws) = foldr (fun w t => lim_reset w - lim_now w + t) 0 ws.
Proof. induction ws as [| w ws IH]; simpl; [done | by rewrite IH]. Qed.

Section Platform.

Context {data : Type} (loads : string -> result data) (naps : Z -> bool).

Lemma attempts_absorbs url ws : forall script response,
  Forall (absorbable naps) ws ->
  attempts loads naps url ((limited <$> ws) ++ script) response
  = (waiting url ws ++ (attempts loads naps url script response).1,
     (attempts loads naps url script response).2).
Proof using Type.
  induction ws as [| w ws IH]; intros script response Hws.
  - simpl. by destruct (attempts loads naps url script response).
  - apply Forall_cons in Hws as [(Hcode & Hwait & Hnaps) Hws].
    rewrite fmap_cons. cbn [app limited attempts].
    rewrite ClientProofs.sleep_accepts by done.
    destruct (Z.eqb_spec (lim_code w) 200); [done |].
    rewrite (IH script response Hws). reflexivity.
Qed.

(** However many rate limits come first, if each can be sat out the call
    gets to the first 200 reply and ends as the decoding of its body ends,
    with the value decoded or with the exception of the decoder: it has
    then made one request per limit and one more, all for the same URL,
    and has slept the sum of the waits the server asked for.  Replies
    after the 200 are not read. *)
Theorem readAPI_sits_out_rate_limits url ws body t rest :
  Forall (absorbable naps) ws ->
  _readAPI loads naps url ((limited <$> ws) ++ (Response 200 body, t) :: rest)
  = (waiting url ws ++ [Request url],
     match loads body with
     | Ok d => Returns d
     | Raise e => Raises e
     end)
  /\ requested (waiting url ws ++ [Request url])
     = replicate (S (length ws)) url
  /\ slept (waiting url ws ++ [Request url])
     = foldr (fun w total => lim_reset w - lim_now w + total) 0 ws.
Proof using Type.
  intros Hws. unfold _readAPI. rewrite attempts_absorbs by done.
  split; [reflexivity |]. split.
  - induction ws as [| w ws IH]; [done |].
    apply Forall_cons in Hws as [_ Hws]. simpl. by rewrite IH.
  - rewrite slept_app, waiting_slept. simpl. lia.
Qed.

(** A failure that is not a rate limit is not retried.  After any number
    of limits sat out, a reply without [getheader] ends the call with the
    [AttributeError] of [e.code], and an HTTP error without the reset
    header ends it with the [TypeError] of [int(None)]; in both cases no
    further request is made. *)
Theorem readAPI_gives_up_on_other_failures url ws t code rest :
  Forall (absorbable naps) ws ->
  _readAPI loads naps url ((limited <$> ws) ++ (URLError, t) :: rest)
  = (waiting url ws ++ [Request url], Raises (AttributeError "code"))
  /\ _readAPI loads naps url ((limited <$> ws) ++ (HTTPError code None, t) :: rest)
     = (waiting url ws ++ [Request url], Raises TypeError).
Proof using Type.
  intros Hws. unfold _readAPI. by rewrite !attempts_absorbs.
Qed.

(** A reply that [urlopen] returns with a code other than 200 is asked for
    again at once: [n] such replies and then a 200 make [n + 1] requests
    and no sleep, and the call ends as the decoding of the body of the 200
    ends; the bodies of the other replies are not decoded. *)
Theorem readAPI_retries_other_codes_at_once url n code other t body rest :
  code <> 200 ->
  _readAPI loads naps url (replicate n (Response code other, t)
                      ++ (Response 200 body, t) :: rest)
  = (replicate (S n) (Request url),
     match loads body with
     | Ok d => Returns d
     | Raise e => Raises e
     end).
Proof using Type.
  intros Hcode. unfold _readAPI. generalize (@None string).
  induction n as [| n IH]; intros response; [done |].
  cbn [replicate app attempts].
  destruct (Z.eqb_spec code 200); [done |].
  by rewrite IH.
Qed.

End Platform.

Import Samples.

Lemma two_limits_absorbable : Forall (absorbable sound_sleeper) two_limits.
Proof. repeat constructor; unfold SLEEP_MAX; simpl; lia. Qed.

(** A 200 reply whose body is not JSON: the call raises at line 231. *)
Example readAPI_body_not_json :
  _readAPI braced sound_sleeper "u" [(Response 200 "not json", 0)]
  = ([Request "u"], Raises ValueError).
Proof. reflexivity. Qed.

Lemma readAPI_sits_out_witness :
  _readAPI braced sound_sleeper "u" ((limited <$> two_limits) ++ [(Response 200 "{}", 130)])
  = ([Request "u"; Sleep 5; Request "u"; Sleep 20; Request "u"], Returns "{}")
  /\ requested (waiting "u" two_limits ++ [Request "u"]) = replicate 3 "u"%string
  /\ slept (waiting "u" two_limits ++ [Request "u"]) = 25.
Proof.
  apply (readAPI_sits_out_rate_limits braced sound_sleeper "u" two_limits "{}" 130 []).
  exact two_limits_absorbable.
Defined.

Lemma readAPI_gives_up_witness :
  _readAPI braced sound_sleeper "u" ((limited <$> two_limits) ++ [(URLError, 130)])
  = ([Request "u"; Sleep 5; Request "u"; Sleep 20; Request "u"],
     Raises (AttributeError "code"))
  /\ _readAPI braced sound_sleeper "u"
       ((limited <$> two_limits) ++ [(HTTPError 500 None, 130)])
     = ([Request "u"; Sleep 5; Request "u"; Sleep 20; Request "u"],
        Raises TypeError).
Proof.
  apply (readAPI_gives_up_on_other_failures braced sound_sleeper "u" two_limits 130 500 []).
  exact two_limits_absorbable.
Defined.

Lemma readAPI_retries_other_codes_witness :
  _readAPI braced sound_sleeper "u"
    (replicate 2 (Response 202 "", 7) ++ [(Response 200 "not json", 7)])
  = (replicate 3 (Request "u"), Raises ValueError).
Proof.
  apply (readAPI_retries_other_codes_at_once braced sound_sleeper "u" 2 202 "" 7
           "not json" []).
  lia.
Defined.

End ClientMore.

(** ** [getSortUsers] *)

Module SortProofs.
Import City Sorting.

Section Sort.

Context {K : Type} (ltb : K -> K -> bool) (key : GitHubUser -> K).
Hypothesis ltb_asym : forall a b, ltb a b = true -> ltb b a = false.

Lemma insert_desc_perm u l : insert_desc ltb key u l ≡ₚ u :: l.
Proof using Type.
  induction l as [| v l IH]; simpl; [done |].
  destruct (ltb (key u) (key v)); [| done].
  rewrite IH. apply Permutation_swap.
Qed.

Lemma sort_desc_perm l : sort_desc ltb key l ≡ₚ l.
Proof using Type.
  induction l as [| u l IH]; simpl; [done |].
  by rewrite insert_desc_perm, IH.
Qed.

Lemma insert_desc_hd u v l :
  ltb (key v) (key u) = false ->
  HdRel (fun a b => ltb (key a) (key b) = false) v l ->
  HdRel (fun a b => ltb (key a) (key b) = false) v (insert_desc ltb key u l).
Proof using Type.
  intros Hvu Hhd. destruct l as [| w l]; simpl; [by constructor |].
  apply HdRel_inv in Hhd.
  destruct (ltb (key u) (key w)); by constructor.
Qed.

Lemma insert_desc_sorted u l :
  descending ltb key l -> descending ltb key (insert_desc ltb key u l).
Proof using ltb_asym.
  unfold descending. induction 1 as [| v l Hl IH Hhd]; simpl.
  - by repeat constructor.
  - destruct (ltb (key u) (key v)) eqn:Huv.
    + constructor; [done |]. apply insert_desc_hd; [| done].
      by apply ltb_asym.
    + constructor; [by constructor | by constructor].
Qed.

Lemma sort_desc_sorted l : descending ltb key (sort_desc ltb key l).
Proof using ltb_asym.
  induction l as [| u l IH]; simpl; [constructor |].
  by apply insert_desc_sorted.
Qed.

(** A list already in descending order is left as it is: users with equal
    keys are not moved. *)
Lemma sort_desc_fixes_sorted l :
  descending ltb key l -> sort_desc ltb key l = l.
Proof using Type.
  unfold descending. induction 1 as [| u l Hl IH Hhd]; simpl; [done |].
  rewrite IH. destruct Hhd as [| v l Huv]; simpl; [done |]. by rewrite Huv.
Qed.

Lemma sort_by_sorts self users order :
  (forall s, getSortUsers s order = sort_by ltb key s) ->
  _dataUsers self = Some users ->
  sorts_by ltb key self users order.
Proof using ltb_asym.
  intros Hdispatch Hu. exists (sort_desc ltb key users).
  rewrite !Hdispatch. unfold sort_by. fields. rewrite Hu. fields.
  split; [done |]. split; [apply sort_desc_perm |].
  split; [apply sort_desc_sorted |].
  rewrite sort_desc_fixes_sorted by apply sort_desc_sorted. reflexivity.
Qed.

End Sort.

Lemma Z_ltb_asym a b : Z.ltb a b = true -> Z.ltb b a = false.
Proof. intros H%Z.ltb_lt. apply Z.ltb_ge. lia. Qed.

Lemma String_ltb_asym a b : String.ltb a b = true -> String.ltb b a = false.
Proof.
  unfold String.ltb. rewrite (String.compare_antisym a b).
  by destruct (String.compare b a).
Qed.

(** Called with one of the ten field names it knows, [getSortUsers]
    returns the stored list after sorting it in place: the same users, the
    larger values of the field first; a second call with the same field
    returns the same list again. *)
Theorem getSortUsers_sorts self users :
  _dataUsers self = Some users ->
  sorts_by Z.ltb getContributions self users "contributions"
  /\ sorts_by String.ltb getName self users "name"
  /\ sorts_by Z.ltb getLongestStreak self users "lstreak"
  /\ sorts_by Z.ltb getCurrentStreak self users "cstreak"
  /\ sorts_by String.ltb getLanguage self users "language"
  /\ sorts_by Z.ltb getFollowers self users "followers"
  /\ sorts_by String.ltb getJoin self users "join"
  /\ sorts_by Z.ltb getOrganizations self users "organizations"
  /\ sorts_by Z.ltb getNumberOfRepositories self users "respositories"
  /\ sorts_by Z.ltb getStars self users "stars".
Proof.
  intros Hu.
  repeat split;
    first [ apply (sort_by_sorts Z.ltb _ Z_ltb_asym); [reflexivity | done]
          | apply (sort_by_sorts String.ltb _ String_ltb_asym);
            [reflexivity | done] ].
Qed.

(** Called with any other string, [getSortUsers] returns [None] and does
    not touch the instance. *)
Theorem getSortUsers_unknown_order self order :
  order ∉ known_orders ->
  getSortUsers self order = (Ok None, self).
Proof.
  intros Hnot. unfold getSortUsers.
  repeat match goal with
         | |- context [String.eqb order ?s] =>
             destruct (String.eqb_spec order s) as [-> | _];
             [exfalso; apply Hnot; unfold known_orders; set_solver |]
         end.
  reflexivity.
Qed.

(** Sorting changes the order of the users, not their number. *)
Theorem getSortUsers_keeps_total self order :
  getTotalUsers (getSortUsers self order).2 = getTotalUsers self.
Proof.
  assert (forall K (ltb : K -> K -> bool) key,
            getTotalUsers (sort_by ltb key self).2 = getTotalUsers self)
    as Hsort.
  { intros K ltb key. unfold sort_by, getTotalUsers. fields.
    destruct (_dataUsers self) as [users |] eqn:Hu; fields; cbn [snd].
    - fields. by rewrite (Permutation_length (sort_desc_perm ltb key users)).
    - by rewrite Hu. }
  unfold getSortUsers.
  repeat match goal with
         | |- context [String.eqb order ?s] =>
             destruct (String.eqb order s); [apply Hsort |]
         end.
  reflexivity.
Qed.

Import Samples.

Lemma getSortUsers_sorts_witness :
  sorts_by Z.ltb getFollowers ranked three_users "followers".
Proof.
  apply (getSortUsers_sorts ranked three_users). reflexivity.
Defined.

Lemma getSortUsers_unknown_order_witness :
  getSortUsers ranked "forks" = (Ok None, ranked).
Proof.
  apply (getSortUsers_unknown_order ranked "forks").
  unfold known_orders. intros Hin.
  repeat (apply elem_of_cons in Hin as [Hin | Hin]; [discriminate Hin |]).
  by apply elem_of_nil in Hin.
Defined.

End SortProofs.

(** ** One call of [_addUser], nothing else running *)

Module SeqProofs.
Import City Calls.

Lemma firsts_elem skip logins : forall login,
  login ∈ firsts skip logins <-> login ∈ logins /\ login ∉ skip.
Proof.
  revert skip. induction logins as [| l logins IH]; intros skip login; simpl.
  - set_solver.
  - destruct (decide (l ∈ skip)) as [Hin | Hout].
    + rewrite IH. set_solver.
    + rewrite elem_of_cons, IH. destruct (decide (login = l)); set_solver.
Qed.

Lemma firsts_NoDup skip logins : NoDup (firsts skip logins).
Proof.
  revert skip. induction logins as [| l logins IH]; intros skip; simpl.
  - constructor.
  - destruct (decide (l ∈ skip)); [done |].
    constructor; [| done]. rewrite firsts_elem. set_solver.
Qed.

Lemma unlock_relock self :
  _lockReadAddUser self = Some false ->
  set_lockReadAddUser false (set_lockReadAddUser true self) = self.
Proof. destruct self. simpl. by intros ->. Qed.

Lemma same_names self names :
  _names self = Some names -> set_names names self = self.
Proof. destruct self. simpl. by intros ->. Qed.

Lemma at_end_or_not (at_ : addUser_pc) : at_ = L_end \/ at_ <> L_end.
Proof. destruct at_; auto. Qed.

Lemma same_dataUsers self users :
  _dataUsers self = Some users -> set_dataUsers users self = self.
Proof. destruct self. simpl. by intros ->. Qed.

Section Oracle.

Variable getData : string -> Profile.

Lemma kept_cons excludedLocations login logins :
  kept getData excludedLocations (login :: logins)
  = kept getData excludedLocations [login]
    ++ kept getData excludedLocations logins.
Proof using Type.
  unfold kept. rewrite !(filter_cons _ login), filter_nil.
  by destruct (decide (any_in excludedLocations (location (getData login))
                       = false)).
Qed.

Ltac statement :=
  rewrite CityProofs.run_addUser_next by discriminate;
  cbn [step_addUser]; fields.

(** What one call of [_addUser] does when no other thread runs. *)
Lemma addUser_alone self new_user seen excluded excludedLocations users :
  _lockReadAddUser self = Some false ->
  _myusers self = Some seen ->
  _excluded self = Some excluded ->
  _excludedLocations self = Some excludedLocations ->
  _dataUsers self = Some users ->
  _addUser getData self new_user
  = if decide (new_user ∈ seen ∪ excluded) then (Returns, self, [])
    else
      (Returns,
       set_dataUsers
         (users ++ (record_of getData <$> kept getData excludedLocations [new_user]))
         (set_myusers ({[ new_user ]} ∪ seen) self),
       [new_user]).
Proof using Type.
  intros Hlock Hseen Hex Hexl Hu. unfold _addUser.
  statement. rewrite Hlock. fields. statement. rewrite Hseen. fields.
  destruct (decide (new_user ∈ seen)) as [Hin | Hout]; fields.
  { statement. rewrite decide_True by set_solver.
    cbn [run_addUser app]. by rewrite unlock_relock. }
  rewrite Hex. fields.
  destruct (decide (new_user ∈ excluded)) as [Hin | Hout']; fields.
  { statement. rewrite decide_True by set_solver.
    cbn [run_addUser app]. by rewrite unlock_relock. }
  rewrite decide_False by set_solver.
  statement. statement. rewrite Hseen. fields. statement. statement.
  rewrite Hexl. fields. unfold getLocation. cbn [data].
  cbn [run_addUser app]. rewrite unlock_relock by done. unfold kept.
  rewrite filter_cons, filter_nil.
  destruct (any_in excludedLocations (location (getData new_user))) eqn:Hany.
  - rewrite decide_False by done. fields. cbn [fmap list_fmap].
    rewrite app_nil_r. f_equal. f_equal. symmetry.
    apply same_dataUsers. fields. done.
  - rewrite decide_True by done. fields. rewrite Hu. fields. reflexivity.
Qed.

End Oracle.

End SeqProofs.

(** ** [readConfig] and [getConfig] *)

Module PersistProofs.
Import City Persist.

Lemma add_each_grows name xs : forall s : gset string,
  add_each name (Some s) xs = Ok (Some (list_to_set xs ∪ s)).
Proof.
  induction xs as [| e xs IH]; intros s; cbn [add_each]; fields.
  - by rewrite list_to_set_nil, union_empty_l_L.
  - rewrite IH, list_to_set_cons. do 2 f_equal.
    set_solver.
Qed.

Section Methods.

Variable quote : string -> string.

(** Read into an instance that has its two exclusion sets, a configuration
    replaces the city, the intervals, the last day and the locations,
    rebuilds the location terms of the URL from the new locations, and adds
    its excluded users and locations to the sets: what was excluded before
    stays excluded.  The state of the crawl is not touched. *)
Theorem readConfig_adds_exclusions self config excluded excludedLocations :
  _excluded self = Some excluded ->
  _excludedLocations self = Some excludedLocations ->
  exists self',
    readConfig quote self config = Ok self'
    /\ _city self' = Some (cfg_name config)
    /\ _intervals self' = Some (cfg_intervals config)
    /\ _lastDay self' = Some (cfg_last_date config)
    /\ _locations self' = Some (cfg_locations config)
    /\ _urlLocations self' = Some (location_terms quote (cfg_locations config))
    /\ _excluded self'
       = Some (list_to_set (cfg_excludedUsers config) ∪ excluded)
    /\ _excludedLocations self'
       = Some (list_to_set (cfg_excludedLocations config) ∪ excludedLocations)
    /\ same_crawl_state self self'.
Proof using Type.
  intros Hex Hexl. unfold readConfig, _addLocationsToURL. fields.
  rewrite Hex, Hexl, !add_each_grows. fields.
  eexists. split; [reflexivity |]. unfold same_crawl_state. fields.
  by repeat split.
Qed.

(** On an instance with the six persisted attributes, [getConfig] returns
    them, the exclusion sets as lists without repetition; reading that
    configuration back changes none of the six, and [getConfig] then
    returns the same configuration again. *)
Theorem getConfig_readConfig_round_trip self city intervals lastDay locations
    excluded excludedLocations :
  _city self = Some city ->
  _intervals self = Some intervals ->
  _lastDay self = Some lastDay ->
  _locations self = Some locations ->
  _excluded self = Some excluded ->
  _excludedLocations self = Some excludedLocations ->
  exists config self',
    getConfig self = Ok config
    /\ cfg_name config = city
    /\ cfg_intervals config = intervals
    /\ cfg_last_date config = lastDay
    /\ cfg_locations config = locations
    /\ NoDup (cfg_excludedUsers config)
    /\ list_to_set (cfg_excludedUsers config) = excluded
    /\ NoDup (cfg_excludedLocations config)
    /\ list_to_set (cfg_excludedLocations config) = excludedLocations
    /\ readConfig quote self config = Ok self'
    /\ _excluded self' = Some excluded
    /\ _excludedLocations self' = Some excludedLocations
    /\ getConfig self' = Ok config.
Proof using Type.
  intros Hc Hi Hl Hlocs Hex Hexl.
  unfold getConfig at 1. rewrite Hc, Hi, Hl, Hlocs, Hex, Hexl. fields.
  eexists _, _. split; [reflexivity |].
  cbn [cfg_name cfg_intervals cfg_last_date cfg_locations cfg_excludedUsers
       cfg_excludedLocations].
  rewrite !list_to_set_elements_L.
  repeat (split; [first [done | apply NoDup_elements] |]).
  unfold readConfig, _addLocationsToURL. fields.
  cbn [cfg_name cfg_intervals cfg_last_date cfg_locations cfg_excludedUsers
       cfg_excludedLocations].
  rewrite Hex, Hexl, !add_each_grows. fields.
  rewrite !list_to_set_elements_L, !union_idemp_L.
  split; [reflexivity |]. unfold getConfig. fields.
  by repeat split.
Qed.

(** No instance that the constructor returns can be handed to [getConfig]
    as it is: built without a configuration it has no intervals, built from
    one it has no exclusion sets. *)
Theorem getConfig_fails_after_init githubID githubSecret config city locations
    excludedUsers excludedLocations debug self :
  __init__ quote githubID githubSecret config city locations excludedUsers
    excludedLocations debug = Ok self ->
  getConfig self
  = Raise (AttributeError (if config is None then "_intervals" else "_excluded")).
Proof using Type.
  destruct githubID as [id |]; [| done].
  destruct githubSecret as [secret |]; [| done].
  unfold __init__. destruct config as [[name ints last locs exu exl] |].
  - unfold readConfig, _addLocationsToURL. fields.
    cbn [cfg_excludedUsers cfg_excludedLocations cfg_name cfg_intervals
         cfg_last_date cfg_locations].
    destruct exu as [| e exu]; cbn [add_each]; fields; [| done].
    destruct exl as [| e exl]; cbn [add_each]; fields; [| done].
    by intros [= <-].
  - unfold init_fresh, _addLocationsToURL. fields.
    by intros [= <-].
Qed.

End Methods.
Import Pool Samples.

Lemma readConfig_adds_exclusions_witness :
  exists self',
    readConfig (fun l => l) spain_excluded saved = Ok self'
    /\ _city self' = Some (cfg_name saved)
    /\ _intervals self' = Some (cfg_intervals saved)
    /\ _lastDay self' = Some (cfg_last_date saved)
    /\ _locations self' = Some (cfg_locations saved)
    /\ _urlLocations self'
       = Some (location_terms (fun l => l) (cfg_locations saved))
    /\ _excluded self' = Some (list_to_set (cfg_excludedUsers saved) ∪ nobody)
    /\ _excludedLocations self'
       = Some (list_to_set (cfg_excludedLocations saved) ∪ spain)
    /\ same_crawl_state spain_excluded self'.
Proof.
  apply (readConfig_adds_exclusions (fun l => l) spain_excluded saved nobody
           spain); reflexivity.
Defined.

Lemma getConfig_readConfig_round_trip_witness :
  exists config self',
    getConfig resumed = Ok config
    /\ cfg_name config = cfg_name saved
    /\ cfg_intervals config = cfg_intervals saved
    /\ cfg_last_date config = cfg_last_date saved
    /\ cfg_locations config = cfg_locations saved
    /\ NoDup (cfg_excludedUsers config)
    /\ list_to_set (cfg_excludedUsers config) = default nobody (_excluded resumed)
    /\ NoDup (cfg_excludedLocations config)
    /\ list_to_set (cfg_excludedLocations config)
       = default nobody (_excludedLocations resumed)
    /\ readConfig (fun l => l) resumed config = Ok self'
    /\ _excluded self' = Some (default nobody (_excluded resumed))
    /\ _excludedLocations self'
       = Some (default nobody (_excludedLocations resumed))
    /\ getConfig self' = Ok config.
Proof.
  apply (getConfig_readConfig_round_trip (fun l => l) resumed (cfg_name saved)
           (cfg_intervals saved) (cfg_last_date saved) (cfg_locations saved)
           (default nobody (_excluded resumed))
           (default nobody (_excludedLocations resumed)));
    vm_compute; reflexivity.
Defined.

Lemma getConfig_fails_after_init_witness :
  getConfig granada_city = Raise (AttributeError "_intervals").
Proof.
  apply (getConfig_fails_after_init (fun l => l)
           (Some "id"%string) (Some "secret"%string) None
           (Some "Granada"%string) None None None false granada_city).
  vm_compute. reflexivity.
Defined.

End PersistProofs.

(** ** The search *)

Module SearchProofs.
Import City Pool Crawler.

Example getURL_page_3 :
  _getURL granada_city 3 (Some "2008-01-01") (Some "2008-06-30") "asc"
  = Ok ("https://api.github.com/search/users?client_id=id&client_secret=secret"
        +:+ "&order=desc&q=sort:joined+type:user+location:Granada"
        +:+ "+created:2008-01-01..2008-06-30"
        +:+ "&sort=joined&order=asc&per_page=100&page=3")%string.
Proof. vm_compute. reflexivity. Qed.

(** Two requests of one search differ exactly in their page numbers. *)
Theorem getURL_page_injective self p q start_date final_date order url :
  _getURL self p start_date final_date order = Ok url ->
  _getURL self q start_date final_date order = Ok url ->
  p = q.
Proof.
  unfold _getURL. fields.
  destruct (_githubID self) as [id |]; fields; [| done].
  destruct (_githubSecret self) as [secret |]; fields; [| done].
  destruct (_urlLocations self) as [locations |]; fields; [| done].
  destruct (negb (given start_date) || negb (given final_date));
    intros [= <-] [= H]; repeat apply (inj (String.append _)) in H;
    by apply (inj pretty) in H.
Qed.

(** Unless both dates are given and non-empty, [_getURL] leaves both of
    them and the [order] argument out: the URL is that of the search over
    all dates in ascending order. *)
Theorem getURL_needs_both_dates self page start_date final_date order :
  given start_date && given final_date = false ->
  _getURL self page start_date final_date order
  = _getURL self page None None "asc".
Proof.
  intros Hdates. unfold _getURL.
  destruct (given start_date), (given final_date); done.
Qed.

Lemma round_half_even_near num den :
  0 < den ->
  round_half_even num den = num / den
  \/ (round_half_even num den = num / den + 1 /\ den <= 2 * (num mod den)).
Proof.
  intros Hden. unfold round_half_even.
  destruct (Z.ltb_spec (2 * (num mod den)) den); [by left |].
  destruct (Z.ltb_spec den (2 * (num mod den))); [right; lia |].
  destruct (Z.even (num / den)); [by left | right; lia].
Qed.

(** Below [100 * 2^47] the quotient has at least six bits after the
    binary point in its [float], and a remainder of at most 99 hundredths
    is never rounded up to the next integer: [int(n / 100)] is the exact
    quotient. *)
Lemma int_div_100_exact n :
  0 <= n < 100 * 2 ^ 47 -> int_div_100 n = Ok (n ÷ 100).
Proof.
  intros [Hlo Hhi]. unfold int_div_100.
  destruct (Z.eqb_spec n 0) as [-> | Hn]; [done |].
  rewrite Z.abs_eq, Z.sgn_pos, !Z.mul_1_l by lia.
  rewrite Z.quot_div_nonneg by lia.
  assert (Z.log2 (n * 128 / 100) < 54) as Hlog.
  { apply Z.log2_lt_pow2.
    - apply Z.div_str_pos. lia.
    - apply Z.div_lt_upper_bound; lia. }
  pose proof (Z.log2_nonneg (n * 128 / 100)) as Hlog0.
  set (e := Z.log2 (n * 128 / 100) - 7 - 52) in *.
  destruct (Z.leb_spec 0 e) as [He | He]; [lia |].
  assert (64 <= 2 ^ (- e)) as Hpow.
  { change 64 with (2 ^ 6). apply Z.pow_le_mono_r; lia. }
  generalize dependent (2 ^ (- e)). intros P HP.
  f_equal.
  pose proof (Z.div_mod n 100 ltac:(lia)) as Hn100.
  pose proof (Z.mod_pos_bound n 100 ltac:(lia)) as Hb.
  set (c := n / 100) in *. set (b := n mod 100) in *.
  pose proof (Z.div_mod (n * P) 100 ltac:(lia)) as HnP.
  pose proof (Z.mod_pos_bound (n * P) 100 ltac:(lia)) as Hr.
  assert (n * P = 100 * (c * P) + b * P) as Hsplit by (rewrite Hn100; ring).
  assert (0 <= b * P <= 99 * P) as HbP by nia.
  symmetry.
  apply (Z.div_unique (round_half_even (n * P) 100) P c
           (round_half_even (n * P) 100 - c * P)); [left | ring].
  generalize dependent (c * P). generalize dependent (b * P). intros Y HY X HX.
  destruct (round_half_even_near (n * P) 100 ltac:(lia)) as [-> | [-> Hup]];
    lia.
Qed.

(** From [100 * 2^47] on it need not be: the [float] nearest to
    140737488355328.99 is 140737488355329. *)
Example int_div_100_one_more :
  int_div_100 14073748835532899 = Ok 140737488355329
  /\ 14073748835532899 ÷ 100 = 140737488355328.
Proof. split; vm_compute; reflexivity. Qed.

Section Api.

Variable api : string -> SearchData.

Lemma put_items_puts self logins names :
  _names self = Some names -> put_items self logins = Ok (Put <$> logins).
Proof using Type.
  intros Hn. destruct logins; [done |]. unfold put_items. by rewrite Hn.
Qed.

Section Period.

Variables (self : GitHubCity) (start_date final_date : string).
Variables (url : Z -> string) (names : list string) (n : Z).
Hypothesis url_ok : forall page,
  _getURL self page (Some start_date) (Some final_date) "asc" = Ok (url page).
Hypothesis names_set : _names self = Some names.
Hypothesis count_same : forall page, 1 <= page -> total_count (api (url page)) = n.

Lemma period_pages_rest (k : nat) : forall page rounds,
  0 <= n < 100 * 2 ^ 47 ->
  1 <= page ->
  page + Z.of_nat k = n ÷ 100 + 2 ->
  (k < rounds)%nat ->
  period_pages api rounds self start_date final_date page (n ÷ 100 + 1)
  = Some {| asked := url <$> seqZ page (Z.of_nat k);
            fed := Put <$> concat ((fun p => items (api (url p)))
                                     <$> seqZ page (Z.of_nat k));
            raised := None |}.
Proof using url_ok names_set count_same.
  induction k as [| k IH]; intros page [| rounds] Hn Hpage Hk Hrounds; try lia.
  - cbn [period_pages]. destruct (Z.ltb_spec (n ÷ 100 + 1) page); [done | lia].
  - cbn [period_pages]. destruct (Z.ltb_spec (n ÷ 100 + 1) page); [lia |].
    rewrite url_ok, (put_items_puts _ _ _ names_set), count_same by done.
    rewrite int_div_100_exact by done.
    rewrite (IH (page + 1) rounds) by lia.
    rewrite (seqZ_cons page) by lia.
    replace (Z.pred (Z.of_nat (S k))) with (Z.of_nat k) by lia.
    cbn [fmap option_fmap option_map later asked fed raised].
    rewrite !fmap_cons. cbn [concat app]. by rewrite fmap_app.
Qed.

(** While the search reports the same [total_count] on every page, a
    count below [100 * 2^47], [_getPeriodUsers] asks for page 1, whose
    reply it drops, and then for the pages 1 to [total_count ÷ 100 + 1] in
    order; it puts the logins of these pages on the queue in order and
    stops without an exception.  When [total_count] is a multiple of 100
    the last of these pages is past the results. *)
Theorem getPeriodUsers_walks_pages rounds :
  0 <= n < 100 * 2 ^ 47 ->
  (Z.to_nat (n ÷ 100 + 1) < rounds)%nat ->
  _getPeriodUsers api rounds self start_date final_date
  = Some {| asked := url 1 :: (url <$> pages_from 1 (n ÷ 100 + 1));
            fed := Put <$> concat ((fun p => items (api (url p)))
                                     <$> pages_from 1 (n ÷ 100 + 1));
            raised := None |}.
Proof using url_ok names_set count_same.
  intros Hn Hrounds. unfold _getPeriodUsers, pages_from. rewrite url_ok.
  assert (0 <= n ÷ 100) by (apply Z.quot_pos; lia).
  destruct rounds as [| rounds]; [lia |]. cbn [period_pages].
  change (10000 <? 1) with false. cbv beta iota.
  rewrite url_ok, (put_items_puts _ _ _ names_set), count_same by done.
  rewrite int_div_100_exact by done.
  rewrite (period_pages_rest (Z.to_nat (n ÷ 100)) (1 + 1) rounds) by lia.
  rewrite (seqZ_cons 1) by lia.
  replace (Z.pred (n ÷ 100 + 1 + 1 - 1)) with (n ÷ 100) by lia.
  rewrite Z2Nat.id by done.
  cbn [fmap option_fmap option_map later asked fed raised].
  rewrite !fmap_cons. cbn [concat app]. by rewrite fmap_app.
Qed.

End Period.

(** [getCityUsers] on an instance built without a configuration, before
    [calculateBestIntervals] or [readConfig] gave it intervals: it makes
    its one check request, starts the twenty workers and then raises
    [AttributeError]; nothing is ever put on the queue, and every step a
    worker takes leaves the pool as it is. *)
Theorem getCityUsers_without_intervals quote id secret city locations
    excludedUsers excludedLocations debug self rounds :
  __init__ quote (Some id) (Some secret) None city locations excludedUsers
    excludedLocations debug = Ok self ->
  exists url,
    getCityUsers api rounds self
    = Some (Started (launch 20 (set_fin false self))
              {| asked := [url]; fed := [];
                 raised := Some (AttributeError "_intervals") |})
    /\ forall getData i, (i < 20)%nat ->
         exec getData (Worker i) (launch 20 (set_fin false self))
         = Some (launch 20 (set_fin false self)).
Proof using Type.
  unfold __init__, init_fresh, _addLocationsToURL. fields. intros [= <-].
  eexists. split.
  - unfold getCityUsers, _getURL. fields. reflexivity.
  - intros getData i Hi. unfold exec, launch. cbn [threads self].
    rewrite lookup_replicate_2 by done.
    cbn [step_processUsers]. fields. cbn [fetched].
    rewrite app_nil_r. f_equal. f_equal.
    apply list_insert_id. by apply lookup_replicate_2.
Qed.

End Api.

Import Samples.

Lemma getURL_page_injective_witness : 3 = 3.
Proof.
  apply (getURL_page_injective granada_city 3 3
           (Some "2008-01-01"%string) (Some "2008-06-30"%string) "asc"
           (first_half_2008 3)); vm_compute; reflexivity.
Defined.

Lemma getURL_needs_both_dates_witness :
  _getURL granada_city 1 (Some "2008-01-01"%string) None "desc"
  = _getURL granada_city 1 None None "asc".
Proof.
  apply (getURL_needs_both_dates granada_city 1
           (Some "2008-01-01"%string) None "desc").
  reflexivity.
Defined.

Lemma getPeriodUsers_walks_pages_witness :
  _getPeriodUsers two_pages 3 granada_city "2008-01-01" "2008-06-30"
  = Some {| asked := first_half_2008 1
                       :: (first_half_2008 <$> pages_from 1 (150 ÷ 100 + 1));
            fed := Put <$> concat ((fun p => items (two_pages (first_half_2008 p)))
                                     <$> pages_from 1 (150 ÷ 100 + 1));
            raised := None |}.
Proof.
  apply (getPeriodUsers_walks_pages two_pages granada_city
           "2008-01-01" "2008-06-30" first_half_2008 [] 150).
  - intros page. reflexivity.
  - reflexivity.
  - intros page _. reflexivity.
  - lia.
  - vm_compute. lia.
Defined.

Lemma getCityUsers_without_intervals_witness :
  exists url,
    getCityUsers two_pages 3 granada_city
    = Some (Started (launch 20 (set_fin false granada_city))
              {| asked := [url]; fed := [];
                 raised := Some (AttributeError "_intervals") |})
    /\ forall getData i, (i < 20)%nat ->
         exec getData (Worker i) (launch 20 (set_fin false granada_city))
         = Some (launch 20 (set_fin false granada_city)).
Proof.
  apply (getCityUsers_without_intervals two_pages (fun l => l)
           "id" "secret" (Some "Granada"%string) None None None false
           granada_city 3).
  vm_compute. reflexivity.
Defined.

End SearchProofs.

(** ** The constructor and the workers *)

Module PipelineProofs.
Import City Pool Pipeline.

Section Workers.

Variable quote : string -> string.
Variable getData : string -> Profile.

(** What the constructor is told to exclude stays out under every
    schedule and with any number of workers: no detail record is fetched
    for a login of [excludedUsers], none is in the result list, and no
    record of the result list has a location containing a term of
    [excludedLocations]. *)
Theorem init_exclusions_hold githubID githubSecret city locations excludedUsers
    excludedLocations debug self numThreads schedule c :
  __init__ quote githubID githubSecret None city locations excludedUsers
    excludedLocations debug = Ok self ->
  run getData schedule (launch numThreads self) = Some c ->
  (forall login, login ∈ default [] excludedUsers ->
     (login ∉ fetched c) /\ (login ∉ result_names c))
  /\ (forall r s, r ∈ default [] (_dataUsers (Pool.self c)) ->
       s ∈ default [] excludedLocations ->
       contains s (getLocation r) = false).
Proof using Type.
  destruct githubID as [id |]; [| done].
  destruct githubSecret as [secret |]; [| done].
  unfold __init__, init_fresh, _addLocationsToURL. fields.
  intros [= <-] Hrun.
  assert (forall l : option (list string),
            (if truthy l then list_to_set (default [] l) else ∅)
            = (list_to_set (default [] l) : gset string)) as Hset.
  { by intros [[| ? ?] |]. }
  rewrite !Hset in Hrun.
  eapply (PoolProofs.run_ok getData (list_to_set (default [] excludedUsers))
            (list_to_set (default [] excludedLocations))) in Hrun.
  2: { by apply PoolProofs.launch_ok. }
  destruct Hrun as ((_ & _ & Hrec) & _ & Hfs).
  pose proof (proj1 (Forall_forall _ _) Hrec) as Hrec'.
  pose proof (proj1 (Forall_forall _ _) Hfs) as Hfs'.
  split.
  - intros login Hin%(elem_of_list_to_set (C:=gset string)). split.
    + intros Hf. by apply (Hfs' login).
    + unfold result_names. intros (r & -> & Hr)%list_elem_of_fmap.
      by destruct (Hrec' r Hr).
  - intros r s Hr Hs%(elem_of_list_to_set (C:=gset string)).
    destruct (Hrec' r Hr) as [_ Hany].
    by eapply CityProofs.any_in_false.
Qed.

(** While nothing is put on the queue, a step of a worker or of the
    producer leaves every worker in its first loop. *)
Lemma first_loop_holds schedule : forall numThreads c0 c,
  threads c0 = replicate numThreads L275 ->
  _names (Pool.self c0) = Some [] ->
  fetched c0 = [] ->
  forallb puts_nothing schedule = true ->
  run getData schedule c0 = Some c ->
  threads c = replicate numThreads L275
  /\ _names (Pool.self c) = Some []
  /\ fetched c = [].
Proof using Type.
  induction schedule as [| a schedule IH];
    intros numThreads c0 c Hts Hn Hf Hsched Hrun.
  - cbn [run] in Hrun. by injection Hrun as <-.
  - cbn [forallb] in Hsched. apply andb_true_iff in Hsched as [Ha Hsched].
    cbn [run] in Hrun.
    destruct (exec getData a c0) as [c1 |] eqn:Hexec; [| done].
    assert (threads c1 = replicate numThreads L275
            /\ _names (Pool.self c1) = Some []
            /\ fetched c1 = []) as (Hts1 & Hn1 & Hf1).
    { destruct a as [i | login |]; [| done |]; cbn [exec] in Hexec.
      + rewrite Hts in Hexec.
        destruct (replicate numThreads L275 !! i) as [p |] eqn:Hp; [| done].
        apply lookup_replicate in Hp as [-> Hi].
        cbn [step_processUsers] in Hexec. rewrite Hn in Hexec.
        fields_all. injection Hexec as <-. cbn [threads Pool.self fetched].
        split; [| split; [done | by rewrite Hf, app_nil_r]].
        apply list_insert_id. by apply lookup_replicate_2.
      + injection Hexec as <-. cbn [threads Pool.self fetched]. fields. done. }
    by apply (IH numThreads c1).
Qed.

(** A worker leaves its first loop only when it sees a login on the
    queue: [_fin] is not read there.  So when the producer puts nothing,
    the workers stay in that loop whatever else happens, also after
    [_fin] is set. *)
Theorem workers_wait_for_a_first_login numThreads self schedule c :
  _names self = Some [] ->
  forallb puts_nothing schedule = true ->
  run getData schedule (launch numThreads self) = Some c ->
  threads c = replicate numThreads L275
  /\ _names (Pool.self c) = Some []
  /\ fetched c = [].
Proof using Type.
  intros Hnames Hsched. by apply first_loop_holds.
Qed.

End Workers.
Import Samples.

Lemma init_exclusions_hold_witness :
  exists c,
    run granada both_enrich (launch 2 spain_excluded) = Some c
    /\ (forall login, login ∈ default [] (@None (list string)) ->
         (login ∉ fetched c) /\ (login ∉ result_names c))
    /\ (forall r s, r ∈ default [] (_dataUsers (Pool.self c)) ->
         s ∈ default [] (Some ["Spain"%string]) ->
         contains s (getLocation r) = false).
Proof.
  eexists. split; [vm_compute; reflexivity |].
  apply (init_exclusions_hold (fun l => l) granada (Some "id"%string)
           (Some "secret"%string) (Some "Granada"%string) None None
           (Some ["Spain"%string]) false spain_excluded 2 both_enrich).
  - vm_compute. reflexivity.
  - vm_compute. reflexivity.
Defined.

Lemma workers_wait_witness :
  exists c,
    run granada [Worker 0; Finish; Worker 1; Worker 0] (launch 2 granada_city)
    = Some c
    /\ threads c = replicate 2 L275
    /\ _names (Pool.self c) = Some []
    /\ fetched c = [].
Proof.
  eexists. split; [vm_compute; reflexivity |].
  apply (workers_wait_for_a_first_login granada 2 granada_city
           [Worker 0; Finish; Worker 1; Worker 0]).
  - reflexivity.
  - reflexivity.
  - vm_compute. reflexivity.
Defined.

End PipelineProofs.

(** ** A search that finds nobody *)

Module CrawlProofs.
Import City Pool Crawler Pipeline.

Section Api.

Variable api : string -> SearchData.
Variable getData : string -> Profile.
Hypothesis no_items : forall url, items (api url) = [].

Lemma period_pages_no_puts rounds : forall self start_date final_date page
    total_pages w,
  period_pages api rounds self start_date final_date page total_pages = Some w ->
  fed w = [].
Proof using no_items.
  induction rounds as [| rounds IH];
    intros self start_date final_date page total_pages w Hrun; [done |].
  cbn [period_pages] in Hrun.
  destruct (total_pages <? page); [by injection Hrun as <- |].
  destruct (_getURL self page (Some start_date) (Some final_date) "asc")
    as [url |]; [| by injection Hrun as <-].
  rewrite no_items in Hrun. cbn [put_items] in Hrun.
  destruct (int_div_100 (total_count (api url))) as [hundreds |];
    [| by injection Hrun as <-].
  destruct (period_pages api rounds self start_date final_date (page + 1)
              (hundreds + 1)) as [w' |] eqn:Hrest; [| done].
  injection Hrun as <-. cbn [later fed app]. by eapply IH.
Qed.

Lemma periods_no_puts rounds self intervals : forall w,
  periods api rounds self intervals = Some w -> fed w = [].
Proof using no_items.
  induction intervals as [| [start_date final_date] intervals IH];
    intros w Hrun; cbn [periods] in Hrun.
  - by injection Hrun as <-.
  - destruct (_getPeriodUsers api rounds self start_date final_date)
      as [w1 |] eqn:Hfirst; [| done].
    assert (fed w1 = []) as Hfed1.
    { unfold _getPeriodUsers in Hfirst.
      destruct (_getURL self 1 (Some start_date) (Some final_date) "asc")
        as [url |]; [| by injection Hfirst as <-].
      destruct (period_pages api rounds self start_date final_date 1 10000)
        as [w0 |] eqn:Hloop; [| done].
      injection Hfirst as <-. cbn [later fed app].
      by eapply period_pages_no_puts. }
    destruct (raised w1); [by injection Hrun as <- |].
    destruct (periods api rounds self intervals) as [w2 |]; [| done].
    injection Hrun as <-. cbn [later fed]. rewrite Hfed1. by apply IH.
Qed.

(** A search that finds nobody: [getCityUsers] puts no login on the
    queue, and sets [_fin] unless an exception stops it first, but no
    worker ever leaves the loop of line 275, which waits for a login and
    does not read [_fin].  Whatever the schedule, the twenty workers are
    still in that loop, so none of the [join]s at the end of
    [getCityUsers] returns. *)
Theorem getCityUsers_never_joins_on_an_empty_search rounds self c w schedule
    c' :
  _names self = Some [] ->
  getCityUsers api rounds self = Some (Started c w) ->
  Forall (worker_or_fed (fed w)) schedule ->
  run getData schedule c = Some c' ->
  (raised w = None -> fed w = [Finish])
  /\ threads c' = replicate 20 L275
  /\ fetched c' = [].
Proof using no_items.
  intros Hnames Hcrawl Hsched Hrun. unfold getCityUsers in Hcrawl.
  destruct (_getURL (set_fin false self) 1 None None "asc") as [url |];
    [| done].
  assert (c = launch 20 (set_fin false self)
          /\ (fed w = [] /\ is_Some (raised w)
              \/ fed w = [Finish] /\ raised w = None)) as [-> Hfed].
  { destruct (attr "_intervals" (_intervals (set_fin false self)))
      as [intervals |].
    - destruct (periods api rounds (set_fin false self) intervals)
        as [w0 |] eqn:Hperiods; [| done].
      apply periods_no_puts in Hperiods.
      injection Hcrawl as <- <-. split; [done |].
      unfold finish. destruct (raised w0) eqn:Hraised; cbn [later fed raised].
      + left. by rewrite Hperiods, Hraised.
      + right. by rewrite Hperiods.
    - injection Hcrawl as <- <-. split; [done |]. left. by eexists. }
  split.
  { intros Hnone. destruct Hfed as [[_ [e He]] | [Hf _]]; [congruence | done]. }
  cut (threads c' = replicate 20 L275
       /\ _names (Pool.self c') = Some [] /\ fetched c' = []);
    [by intros (? & _ & ?) |].
  eapply (PipelineProofs.first_loop_holds getData schedule 20
            (launch 20 (set_fin false self))); [done | | done | | done].
  - cbn [launch Pool.self]. fields. done.
  - apply forallb_forall. intros a Ha%list_elem_of_In.
    pose proof (proj1 (Forall_forall _ _) Hsched a Ha) as [Hin | [i ->]];
      [| done].
    destruct Hfed as [[Hf _] | [Hf _]]; rewrite Hf in Hin.
    + by apply elem_of_nil in Hin.
    + by apply list_elem_of_singleton in Hin as ->.
Qed.

End Api.

Import Samples.

Lemma getCityUsers_never_joins_witness :
  exists c w c',
    getCityUsers empty_search 3 resumed = Some (Started c w)
    /\ run granada [Worker 0; Finish; Worker 7; Worker 0] c = Some c'
    /\ (raised w = None -> fed w = [Finish])
    /\ threads c' = replicate 20 L275
    /\ fetched c' = [].
Proof.
  eexists _, _, _. split; [vm_compute; reflexivity |].
  split; [vm_compute; reflexivity |].
  eapply (getCityUsers_never_joins_on_an_empty_search empty_search granada
            (fun url => eq_refl) 3 resumed)
    with (schedule := [Worker 0; Finish; Worker 7; Worker 0]).
  - reflexivity.
  - vm_compute. reflexivity.
  - repeat (apply Forall_cons_2;
              [first [by right; eexists | by left; constructor] |]).
    apply Forall_nil_2.
  - vm_compute. reflexivity.
Defined.

End CrawlProofs.

(** ** The two locks *)

Module LockProofs.
Import City Pool Locks.

Lemma holders_insert h (threads : list pc) i p p' :
  threads !! i = Some p ->
  (holders h (<[ i := p' ]> threads) + (if h p then 1 else 0)
   = holders h threads + (if h p' then 1 else 0))%nat.
Proof.
  unfold holders. revert i. induction threads as [| q threads IH]; intros i Hi.
  - done.
  - destruct i as [| i]; simpl in *.
    + injection Hi as ->. destruct (h p), (h p'); simpl; lia.
    + specialize (IH i Hi). destruct (h q); simpl; lia.
Qed.

Lemma holders_elem h (threads : list pc) i p :
  threads !! i = Some p -> h p = true -> (1 <= holders h threads)%nat.
Proof.
  unfold holders. revert i. induction threads as [| q threads IH]; intros i Hi Hp.
  - done.
  - destruct i as [| i]; simpl in *.
    + injection Hi as ->. rewrite Hp. simpl. lia.
    + specialize (IH i Hi Hp). destruct (h q); simpl; lia.
Qed.

Lemma holders_replicate h n p : h p = false -> holders h (replicate n p) = 0%nat.
Proof.
  intros Hp. unfold holders. induction n as [| n IH]; simpl; [done |].
  by rewrite Hp.
Qed.

Section Threads.

Variable getData : string -> Profile.

Ltac break_complete H :=
  destruct H as ([names Hnames] & [fin Hfin] & [seen Hseen] & [ex Hex]
                 & [exl Hexl] & [users Hu]).

Lemma step_addUser_orderly new_user at_ s g a at' s' fs :
  complete s ->
  _lockGetUser s = Some g ->
  _lockReadAddUser s = Some a ->
  (holds_add (L287 new_user at_) = true -> a = true) ->
  step_addUser getData new_user at_ s = Next (at', s', fs) ->
  complete s'
  /\ _lockGetUser s' = Some g
  /\ (exists a', _lockReadAddUser s' = Some a'
        /\ ((if a' then 1 else 0)
            + (if holds_add (L287 new_user at_) then 1 else 0)
            = (if a then 1 else 0)
              + (if holds_add (L287 new_user at') then 1 else 0))%nat).
Proof using Type.
  intros Hc Hg Ha Hap Hstep. break_complete Hc. unfold complete.
  destruct at_; cbn [step_addUser] in Hstep; fields_all;
    rewrite ?Hseen, ?Hex, ?Hexl, ?Hu, ?Ha in Hstep;
    split_reads; try discriminate; injection Hstep as <- <- <-; fields;
    cbn [holds_add] in *;
    rewrite ?Hnames, ?Hfin, ?Hseen, ?Hex, ?Hexl, ?Hu, ?Hg, ?Ha;
    try rewrite (Hap eq_refl) in *;
    (split; [by repeat split; eauto |]); (split; [done |]);
    eexists; (split; [reflexivity |]); done.
Qed.

Lemma step_addUser_no_throw new_user at_ s g a e :
  complete s ->
  _lockGetUser s = Some g ->
  _lockReadAddUser s = Some a ->
  step_addUser getData new_user at_ s <> Throws e.
Proof using Type.
  intros Hc Hg Ha Hstep. break_complete Hc.
  destruct at_; cbn [step_addUser] in Hstep; fields_all;
    rewrite ?Hseen, ?Hex, ?Hexl, ?Hu, ?Ha in Hstep;
    split_reads; discriminate.
Qed.

(** One statement of a live worker on a complete instance keeps the
    instance complete and the worker alive, and it moves the worker into or
    out of a critical section exactly as it takes or gives back the
    lock. *)
Lemma step_orderly p s g a p' s' fs :
  complete s ->
  _lockGetUser s = Some g ->
  _lockReadAddUser s = Some a ->
  (holds_get p = true -> g = true) ->
  (holds_add p = true -> a = true) ->
  step_processUsers getData p s = Next (p', s', fs) ->
  complete s' /\ alive p'
  /\ (exists g', _lockGetUser s' = Some g'
        /\ ((if g' then 1 else 0) + (if holds_get p then 1 else 0)
            = (if g then 1 else 0) + (if holds_get p' then 1 else 0))%nat)
  /\ (exists a', _lockReadAddUser s' = Some a'
        /\ ((if a' then 1 else 0) + (if holds_add p then 1 else 0)
            = (if a then 1 else 0) + (if holds_add p' then 1 else 0))%nat).
Proof using Type.
  intros Hc Hg Ha Hgp Hap Hstep.
  destruct p as [| | | | | new_user | new_user at_ | |].
  7: { destruct (SeqProofs.at_end_or_not at_) as [-> | Hat].
       - cbn [step_processUsers] in Hstep. injection Hstep as <- <- <-.
         split; [done |]. split; [done |]. split; by eexists.
       - assert (match step_addUser getData new_user at_ s with
                 | Next (at', self', fs) => Next (L287 new_user at', self', fs)
                 | Blocks => Blocks
                 | Throws e => Throws e
                 end = Next (p', s', fs)) as Hstep' by (by destruct at_).
         destruct (step_addUser getData new_user at_ s)
           as [[[at' s''] fs'] | | e] eqn:Hadd; try discriminate.
         injection Hstep' as <- <- <-.
         destruct (step_addUser_orderly _ _ _ _ _ _ _ _ Hc Hg Ha Hap Hadd)
           as (Hc' & Hg' & Ha').
         split; [done |]. split; [done |]. split; [| done].
         exists g. by split. }
  all: break_complete Hc; unfold complete;
    cbn [step_processUsers] in Hstep; fields_all;
    rewrite ?Hnames, ?Hfin, ?Hg in Hstep;
    split_reads; try discriminate; injection Hstep as <- <- <-; fields;
    cbn [holds_get holds_add alive] in *;
    rewrite ?Hnames, ?Hfin, ?Hseen, ?Hex, ?Hexl, ?Hu, ?Hg, ?Ha;
    try rewrite (Hgp eq_refl) in *;
    (split; [by repeat split; eauto |]); (split; [done |]);
    split; eexists; (split; [reflexivity |]); done.
Qed.

Lemma step_no_throw p s g a e :
  complete s ->
  _lockGetUser s = Some g ->
  _lockReadAddUser s = Some a ->
  step_processUsers getData p s <> Throws e.
Proof using Type.
  intros Hc Hg Ha Hstep.
  destruct p as [| | | | | new_user | new_user at_ | |].
  7: { destruct (SeqProofs.at_end_or_not at_) as [-> | Hat]; [done |].
       assert (match step_addUser getData new_user at_ s with
               | Next (at', self', fs) => Next (L287 new_user at', self', fs)
               | Blocks => Blocks
               | Throws e => Throws e
               end = Throws e) as Hstep' by (by destruct at_).
       destruct (step_addUser getData new_user at_ s)
         as [[[at' s''] fs'] | | e'] eqn:Hadd; try discriminate.
       by eapply step_addUser_no_throw. }
  all: break_complete Hc; cbn [step_processUsers] in Hstep; fields_all;
    rewrite ?Hnames, ?Hfin, ?Hg in Hstep; split_reads; discriminate.
Qed.

Lemma exec_orderly a c c' :
  orderly c -> exec getData a c = Some c' -> orderly c'.
Proof using Type.
  intros (Hc & Hlive & (g & Hg & Hng) & (b & Hb & Hnb)) Hexec.
  destruct a as [i | login |]; cbn [exec] in Hexec.
  - destruct (threads c !! i) as [p |] eqn:Hp; [| done].
    destruct (step_processUsers getData p (self c))
      as [[[p' s'] fs] | | e] eqn:Hstep; [| done |].
    2: { by eapply step_no_throw in Hstep. }
    injection Hexec as <-.
    assert (holds_get p = true -> g = true) as Hgp.
    { intros Hh. pose proof (holders_elem _ _ _ _ Hp Hh).
      destruct g; [done | lia]. }
    assert (holds_add p = true -> b = true) as Hbp.
    { intros Hh. pose proof (holders_elem _ _ _ _ Hp Hh).
      destruct b; [done | lia]. }
    destruct (step_orderly _ _ _ _ _ _ _ Hc Hg Hb Hgp Hbp Hstep)
      as (Hc' & Hp' & (g' & Hg' & Heg) & (b' & Hb' & Heb)).
    split; [done |]. split; [by apply Forall_insert |].
    cbn [self threads]. split.
    + exists g'. split; [done |].
      pose proof (holders_insert holds_get _ _ _ p' Hp). lia.
    + exists b'. split; [done |].
      pose proof (holders_insert holds_add _ _ _ p' Hp). lia.
  - destruct (_names (self c)) eqn:Hn; [| done]. injection Hexec as <-.
    split; [| split; [done |]; split; [by exists g | by exists b]].
    destruct Hc as (? & ? & ? & ? & ? & ?). unfold complete. fields.
    by repeat split; eauto.
  - injection Hexec as <-.
    split; [| split; [done |]; split; [by exists g | by exists b]].
    destruct Hc as (? & ? & ? & ? & ? & ?). unfold complete. fields.
    by repeat split; eauto.
Qed.

Lemma run_orderly schedule : forall c c',
  orderly c -> run getData schedule c = Some c' -> orderly c'.
Proof using Type.
  induction schedule as [| a schedule IH]; intros c c' Hc Hrun; cbn [run] in Hrun.
  - by injection Hrun as <-.
  - destruct (exec getData a c) as [c1 |] eqn:Hexec; [| done].
    eapply IH; [| done]. by eapply exec_orderly.
Qed.

(** On an instance that has all the attributes the workers read and both
    locks free, whatever the number of workers and the schedule: no worker
    dies of an exception, at most one worker at a time is between an
    [acquire] and the [release] that follows it, for each of the two locks,
    and a lock is held exactly while a worker is there. *)
Theorem locks_exclude numThreads obj schedule c :
  complete obj ->
  _lockGetUser obj = Some false ->
  _lockReadAddUser obj = Some false ->
  run getData schedule (launch numThreads obj) = Some c ->
  Forall alive (threads c)
  /\ (holders holds_get (threads c) <= 1)%nat
  /\ (holders holds_add (threads c) <= 1)%nat
  /\ _lockGetUser (self c)
     = Some (bool_decide (holders holds_get (threads c) = 1%nat))
  /\ _lockReadAddUser (self c)
     = Some (bool_decide (holders holds_add (threads c) = 1%nat)).
Proof using Type.
  intros Hc Hg Ha Hrun.
  assert (orderly (launch numThreads obj)) as Hstart.
  { split; [done |]. split; [by apply Forall_replicate |].
    cbn [launch self threads].
    split; [exists false | exists false]; (split; [done |]);
      by apply holders_replicate. }
  destruct (run_orderly schedule _ _ Hstart Hrun)
    as (_ & Hlive & (g & Hg' & Hng) & (a & Ha' & Hna)).
  rewrite Hg', Ha', Hng, Hna.
  destruct g, a; repeat split; first [done | lia].
Qed.

End Threads.
Lemma locks_exclude_witness :
  exists c,
    run granada both_enrich (launch 2 granada_city) = Some c
    /\ Forall alive (threads c)
    /\ (holders holds_get (threads c) <= 1)%nat
    /\ (holders holds_add (threads c) <= 1)%nat
    /\ _lockGetUser (self c)
       = Some (bool_decide (holders holds_get (threads c) = 1%nat))
    /\ _lockReadAddUser (self c)
       = Some (bool_decide (holders holds_add (threads c) = 1%nat)).
Proof.
  eexists. split; [vm_compute; reflexivity |].
  apply (locks_exclude granada 2 granada_city both_enrich).
  - repeat split; by eexists.
  - reflexivity.
  - reflexivity.
  - vm_compute. reflexivity.
Defined.

End LockProofs.

(** ** One worker, left alone with a full queue *)

Module DrainProofs.
Import City Pool Calls Drain.

Lemma run_app getData s1 s2 : forall c,
  run getData (s1 ++ s2) c
  = match run getData s1 c with
    | Some c' => run getData s2 c'
    | None => None
    end.
Proof.
  induction s1 as [| a s1 IH]; intros c; cbn [app run]; [done |].
  by destruct (exec getData a c).
Qed.

Lemma burst_add i m n : burst i (m + n) = burst i m ++ burst i n.
Proof. unfold burst. apply replicate_add. Qed.

Lemma run_puts getData logins : forall s names ts F,
  _names s = Some names ->
  run getData (Put <$> logins) {| self := s; threads := ts; fetched := F |}
  = Some {| self := set_names (names ++ logins) s; threads := ts;
            fetched := F |}.
Proof.
  induction logins as [| login logins IH]; intros s names ts F Hn.
  - cbn [fmap list_fmap run]. rewrite app_nil_r.
    by rewrite (SeqProofs.same_names s names).
  - rewrite fmap_cons. cbn [run exec self threads fetched]. rewrite Hn.
    rewrite (IH _ (names ++ [login])) by done.
    by rewrite <- app_assoc.
Qed.

Section Worker.

Variable getData : string -> Profile.

(** The statements of [_addUser] taken by the only worker of a pool are
    those of the call made alone. *)
Lemma worker_runs_addUser steps : forall new_user at_ s acc s' out,
  run_addUser getData steps new_user at_ s acc = (Returns, s', out) ->
  exists new m,
    out = acc ++ new
    /\ forall F,
         run getData (burst 0 m)
           {| self := s; threads := [L287 new_user at_]; fetched := F |}
         = Some {| self := s'; threads := [L287 new_user L_end];
                   fetched := F ++ new |}.
Proof using Type.
  induction steps as [| steps IH]; intros new_user at_ s acc s' out Hrun.
  - destruct at_; try discriminate. injection Hrun as <- <-.
    exists [], 0%nat. split; [by rewrite app_nil_r |].
    intros F. by rewrite app_nil_r.
  - destruct (SeqProofs.at_end_or_not at_) as [-> | Hat].
    + injection Hrun as <- <-. exists [], 0%nat.
      split; [by rewrite app_nil_r |]. intros F. by rewrite app_nil_r.
    + rewrite CityProofs.run_addUser_next in Hrun by done.
      destruct (step_addUser getData new_user at_ s)
        as [[[at' s1] fs1] | | e] eqn:Hstep; try discriminate.
      destruct (IH _ _ _ _ _ _ Hrun) as (new & m & -> & Hm).
      exists (fs1 ++ new), (S m). split; [by rewrite app_assoc |].
      intros F. cbn [burst replicate run exec threads self fetched].
      change ([L287 new_user at_] !! 0%nat) with (Some (L287 new_user at_)).
      cbv beta iota.
      assert (step_processUsers getData (L287 new_user at_) s
              = Next (L287 new_user at', s1, fs1)) as ->.
      { destruct at_; try done; cbn [step_processUsers]; by rewrite Hstep. }
      cbn [insert list_insert]. fold (burst 0 m). rewrite Hm.
      by rewrite app_assoc.
Qed.

Lemma reaches_refl c : worker_reaches getData c c.
Proof using Type. by exists 0%nat. Qed.

Lemma reaches_trans c1 c2 c3 :
  worker_reaches getData c1 c2 -> worker_reaches getData c2 c3 ->
  worker_reaches getData c1 c3.
Proof using Type.
  intros [m1 H1] [m2 H2]. exists (m1 + m2)%nat.
  by rewrite burst_add, run_app, H1.
Qed.

Lemma reaches_step p s F p' s' fs :
  step_processUsers getData p s = Next (p', s', fs) ->
  worker_reaches getData
    {| self := s; threads := [p]; fetched := F |}
    {| self := s'; threads := [p']; fetched := F ++ fs |}.
Proof using Type.
  intros Hstep. exists 1%nat. cbn [burst replicate run exec threads self fetched].
  change ([p] !! 0%nat) with (Some p). cbv beta iota. by rewrite Hstep.
Qed.

Section Sets.

Variables excluded excludedLocations : gset string.

(** From line 278 with [_fin] set, the only worker of a pool empties the
    queue and returns. *)
Lemma worker_drains logins : forall s seen users F,
  _names s = Some logins ->
  _fin s = Some true ->
  _lockGetUser s = Some false ->
  _lockReadAddUser s = Some false ->
  _myusers s = Some seen ->
  _excluded s = Some excluded ->
  _excludedLocations s = Some excludedLocations ->
  _dataUsers s = Some users ->
  exists c,
    worker_reaches getData {| self := s; threads := [L278]; fetched := F |} c
    /\ threads c = [Returned]
    /\ fetched c = F ++ firsts (seen ∪ excluded) logins
    /\ _names (self c) = Some []
    /\ _myusers (self c)
       = Some (seen ∪ list_to_set (firsts (seen ∪ excluded) logins))
    /\ _dataUsers (self c)
       = Some (users ++ (record_of getData
                          <$> kept getData excludedLocations
                                (firsts (seen ∪ excluded) logins))).
Proof using Type.
  induction logins as [| new_user logins IH];
    intros s seen users F Hn Hfin Hg Ha Hseen Hex Hexl Hu.
  - eexists. split.
    { apply reaches_step. cbn [step_processUsers]. rewrite Hfin, Hn. fields.
      reflexivity. }
    cbn [threads fetched self firsts]. unfold kept. rewrite filter_nil.
    cbn [fmap list_fmap]. rewrite list_to_set_nil, !app_nil_r, union_empty_r_L.
    done.
  - set (s1 := set_lockGetUser false
                 (set_names logins (set_lockGetUser true s))).
    assert (worker_reaches getData
              {| self := s; threads := [L278]; fetched := F |}
              {| self := s1; threads := [L287 new_user L179]; fetched := F |})
      as Hloop.
    { eapply reaches_trans.
      { apply reaches_step. cbn [step_processUsers]. rewrite Hfin, Hn. fields.
        reflexivity. }
      eapply reaches_trans.
      { apply reaches_step. cbn [step_processUsers]. rewrite Hg. fields.
        reflexivity. }
      eapply reaches_trans.
      { apply reaches_step. cbn [step_processUsers]. fields. rewrite Hn. fields.
        reflexivity. }
      eapply reaches_trans.
      { apply reaches_step. cbn [step_processUsers]. fields. reflexivity. }
      rewrite !app_nil_r. apply reaches_refl. }
    pose proof (SeqProofs.addUser_alone getData s1 new_user seen excluded
                  excludedLocations users Ha Hseen Hex Hexl Hu) as Hcall.
    destruct (decide (new_user ∈ seen ∪ excluded)) as [Hin | Hout].
    + destruct (worker_runs_addUser _ _ _ _ _ _ _ Hcall)
        as (new & m & Hnew & Hm).
      cbn [app] in Hnew. subst new.
      destruct (IH s1 seen users F) as (c & Hc & Hrest); [done.. |].
      exists c. cbn [firsts]. rewrite decide_True by done.
      split; [| done].
      eapply reaches_trans; [exact Hloop |].
      eapply reaches_trans; [by exists m |].
      eapply reaches_trans; [by apply reaches_step |].
      by rewrite !app_nil_r.
    + destruct (worker_runs_addUser _ _ _ _ _ _ _ Hcall)
        as (new & m & Hnew & Hm).
      cbn [app] in Hnew. subst new.
      set (s2 := set_dataUsers
                   (users ++ (record_of getData
                                <$> kept getData excludedLocations [new_user]))
                   (set_myusers ({[new_user]} ∪ seen) s1)) in *.
      destruct (IH s2 ({[new_user]} ∪ seen)
                  (users ++ (record_of getData
                               <$> kept getData excludedLocations [new_user]))
                  (F ++ [new_user]))
        as (c & Hc & Hts & Hfs & Hnames & Hseen' & Hu'); [done.. |].
      exists c. cbn [firsts]. rewrite decide_False by done.
      replace ({[new_user]} ∪ (seen ∪ excluded))
        with ({[new_user]} ∪ seen ∪ excluded) by set_solver.
      split.
      { eapply reaches_trans; [exact Hloop |].
        eapply reaches_trans; [by exists m |].
        eapply reaches_trans; [by apply reaches_step |].
        by rewrite !app_nil_r. }
      split; [done |]. split; [by rewrite Hfs, <- app_assoc |].
      split; [done |]. split.
      * rewrite Hseen'. f_equal. rewrite list_to_set_cons. set_solver.
      * rewrite Hu'. f_equal.
        rewrite (SeqProofs.kept_cons getData excludedLocations new_user
                   (firsts _ _)), fmap_app.
        by rewrite app_assoc.
Qed.

(** One worker, and a producer that has put its logins, one at least, and
    set [_fin] before the worker takes its first statement: the worker
    empties the queue and returns.  It has then fetched a detail record for
    each login at its first occurrence, unless the login was seen before or
    is excluded, and the result list has gained, in that order, the records
    whose location passes the filter. *)
Theorem single_worker_drains_the_queue obj login logins seen users :
  _names obj = Some [] ->
  _lockGetUser obj = Some false ->
  _lockReadAddUser obj = Some false ->
  _myusers obj = Some seen ->
  _excluded obj = Some excluded ->
  _excludedLocations obj = Some excludedLocations ->
  _dataUsers obj = Some users ->
  exists m c,
    run getData ((Put <$> login :: logins) ++ [Finish] ++ burst 0 m)
      (launch 1 obj) = Some c
    /\ threads c = [Returned]
    /\ _names (self c) = Some []
    /\ fetched c = firsts (seen ∪ excluded) (login :: logins)
    /\ NoDup (fetched c)
    /\ _myusers (self c)
       = Some (seen ∪ list_to_set (firsts (seen ∪ excluded) (login :: logins)))
    /\ _dataUsers (self c)
       = Some (users ++ (record_of getData
                          <$> kept getData excludedLocations
                                (firsts (seen ∪ excluded) (login :: logins)))).
Proof using Type.
  intros Hn Hg Ha Hseen Hex Hexl Hu.
  set (s := set_fin true (set_names ([] ++ login :: logins) obj)).
  destruct (worker_drains (login :: logins) s seen users [])
    as (c & [m Hm] & Hts & Hfs & Hnames & Hseen' & Hu'); [done.. |].
  exists (1 + m)%nat, c. split.
  2: { repeat split; try done. rewrite Hfs. apply SeqProofs.firsts_NoDup. }
  rewrite run_app. unfold launch. cbn [replicate].
  rewrite (run_puts getData (login :: logins) obj []) by done.
  rewrite run_app. cbn [run exec self threads fetched]. fold s.
  rewrite burst_add, run_app.
  cbn [burst replicate run exec self threads fetched].
  change ([L275] !! 0%nat) with (Some L275). cbv beta iota.
  cbn [step_processUsers]. subst s. fields. cbn [app].
  cbn [insert list_insert]. exact Hm.
Qed.

End Sets.

End Worker.
Import Crawler Samples.

Lemma single_worker_drains_witness :
  exists m c,
    run granada ((Put <$> ["a"; "b"; "a"]%string) ++ [Finish] ++ burst 0 m)
      (launch 1 granada_city) = Some c
    /\ threads c = [Returned]
    /\ _names (self c) = Some []
    /\ fetched c = firsts (nobody ∪ nobody) ["a"; "b"; "a"]%string
    /\ NoDup (fetched c)
    /\ _myusers (self c)
       = Some (nobody ∪ list_to_set
                          (firsts (nobody ∪ nobody) ["a"; "b"; "a"]%string))
    /\ _dataUsers (self c)
       = Some ([] ++ (record_of granada
                        <$> kept granada nobody
                              (firsts (nobody ∪ nobody) ["a"; "b"; "a"]%string))).
Proof.
  apply (single_worker_drains_the_queue granada nobody nobody granada_city
           "a" ["b"; "a"]%string nobody []); reflexivity.
Defined.

End DrainProofs.
